(** * HX711 load-cell driver and scale abstraction

    A shallow embedding of [src/HX711.cpp] (the protocol driver) and of
    [AbstractScale.cpp] (the calibration layer), followed by the properties
    the specification states about them.

    Conventions.
    - A C++ integer is a [Z]; where the source narrows to a fixed width
      ([std::uint8_t]) the wrap-around is written out with [mod].
    - A [double] is a primitive binary64 [float], so that a division by zero
      yields an infinity or a NaN exactly as the hardware does.
    - A method is a computation [M S A]: it receives the state [S], and
      returns the state it leaves behind together with either a value or the
      failure it raised.  A C++ exception keeps every side effect performed
      before the [throw], so the state is returned on both paths.
    - The GPIO lines are part of the state: the levels the data line will
      deliver, and the trace of everything the driver did to the outside. *)

From Stdlib Require Import ZArith Lia List Bool Floats.
Import ListNotations.
Local Open Scope Z_scope.

(** ** Failures and the state-and-failure monad *)

Inductive failure : Type :=
| InvalidArgument   (* std::invalid_argument *)
| RangeError        (* std::range_error *)
| RuntimeError      (* std::runtime_error *)
| TimeoutException  (* HX711::TimeoutException *)
| AssertionFailed   (* a failed assert: the process aborts, nothing catches it *)
| Undefined.        (* a conversion the language gives no result for *)

Inductive result (A : Type) : Type :=
| Ok (a : A)
| Err (e : failure).
Arguments Ok {A} a.
Arguments Err {A} e.

Definition M (S A : Type) : Type := S -> result A * S.

Definition ret {S A} (a : A) : M S A := fun s => (Ok a, s).

Definition throw {S A} (e : failure) : M S A := fun s => (Err e, s).

Definition bind {S A B} (m : M S A) (k : A -> M S B) : M S B :=
  fun s =>
    match m s with
    | (Ok a, s') => k a s'
    | (Err e, s') => (Err e, s')
    end.

Definition modify {S} (f : S -> S) : M S unit := fun s => (Ok tt, f s).

(** [try { m } catch (const TimeoutException&) { handler }]: only a
    [TimeoutException] enters the handler, any other failure passes. *)
Definition catch_timeout {S A} (m : M S A) (handler : M S A) : M S A :=
  fun s =>
    match m s with
    | (Err TimeoutException, s') => handler s'
    | other => other
    end.

(** [for (i = 0; i < n; ++i) acc = body(acc)] *)
Fixpoint for_loop {S A} (n : nat) (body : A -> M S A) (acc : A) : M S A :=
  match n with
  | O => ret acc
  | S n' => bind (body acc) (for_loop n' body)
  end.

Declare Scope monad_scope.
Delimit Scope monad_scope with monad.
Notation "x <- m ;; k" := (bind m (fun x => k))
  (at level 61, m at next level, right associativity) : monad_scope.
Notation "m ;;; k" := (bind m (fun _ => k))
  (at level 61, right associativity) : monad_scope.

(** ** The protocol driver, [HX711.cpp] *)

Module HX711.

Inductive Channel : Type := A | B.

Inductive Gain : Type := GAIN_128 | GAIN_32 | GAIN_64.

Inductive Format : Type := MSB | LSB.

Inductive PinWatchState : Type := NONE | NORMAL | PAUSE | END.

(** [std::cv_status], the outcome of [wait_for]. *)
Inductive cv_status : Type := no_timeout | timeout.

Definition Channel_eqb (x y : Channel) : bool :=
  match x, y with A, A | B, B => true | _, _ => false end.

Definition Gain_eqb (x y : Gain) : bool :=
  match x, y with
  | GAIN_128, GAIN_128 | GAIN_32, GAIN_32 | GAIN_64, GAIN_64 => true
  | _, _ => false
  end.

Definition Format_eqb (x y : Format) : bool :=
  match x, y with MSB, MSB | LSB, LSB => true | _, _ => false end.

Definition PinWatchState_eqb (x y : PinWatchState) : bool :=
  match x, y with
  | NONE, NONE | NORMAL, NORMAL | PAUSE, PAUSE | END, END => true
  | _, _ => false
  end.

(** Modelled from the spec: [HX711.h] is not among the sources.  The spec
    gives the raw range as [-2^23, 2^23-1] and names its two ends as the
    saturation values. *)
Definition HX_MIN_VALUE : Z := - 0x800000.
Definition HX_MAX_VALUE : Z := 0x7fffff.

(** Modelled from the spec: one sample is exactly three bytes. *)
Definition _BYTES_PER_CONVERSION_PERIOD : Z := 3.

(** Modelled from the spec: the table of total clock pulses per transaction,
    indexed by gain, is declared in the absent header.  The spec's words are
    "Gain 128 and Gain 32 require 25 total pulses, Gain 64 requires 27". *)
Definition PULSES (g : Gain) : Z :=
  match g with
  | GAIN_128 => 25
  | GAIN_32 => 25
  | GAIN_64 => 27
  end.

(** The default durations are declared in the absent header and the spec
    gives no figures, so the constructor takes them as a parameter. *)
Record Defaults : Type := {
  _DEFAULT_MAX_WAIT : Z;
  _DEFAULT_NOT_READY_SLEEP : Z;
  _DEFAULT_SATURATED_SLEEP : Z;
  _DEFAULT_POLL_SLEEP : Z
}.

(** The data members of the class. *)
Record object : Type := {
  _gpioHandle : Z;
  _dataPin : Z;
  _clockPin : Z;
  _maxWait : Z;
  _lastVal : Z;
  _watchState : PinWatchState;
  _notReadySleep : Z;
  _saturatedSleep : Z;
  _pollSleep : Z;
  _channel : Channel;
  _gain : Gain;
  _bitFormat : Format;
  _byteFormat : Format
}.

(** What the driver does to the outside, newest event first. *)
Inductive event : Type :=
| ClockWrite (level : bool)   (* lgGpioWrite(handle, clockPin, level) *)
| DataRead (level : Z)        (* lgGpioRead(handle, dataPin) returned level *)
| Delay (us : Z)              (* _delayMicroseconds(us) *)
| Sleep (duration : Z)        (* lguSleep(duration / den) *)
| Yield                       (* std::this_thread::yield() *)
| NotifyAll (v : Z)           (* _dataReady.notify_all(), with the value of
                                 _lastVal the woken readers find *)
| ChipOpen (handle : Z)       (* lgGpiochipOpen(0) returned handle *)
| ClaimInput (status : Z)     (* lgGpioClaimInput returned status *)
| ClaimOutput (status : Z)    (* lgGpioClaimOutput returned status *)
| ThreadStart.                (* std::thread(&HX711::_watchPin, this) *)

(** The two lines: [dout k] is what the [k]-th read of the data pin returns
    (an [int]: 0, 1 or a negative error code of the GPIO library). *)
Record lines : Type := {
  dout : nat -> Z;
  reads : nat;
  trace : list event
}.

Record state : Type := {
  this : object;
  gpio : lines
}.

Definition emit (e : event) : M state unit :=
  modify (fun s =>
    {| this := this s;
       gpio := {| dout := dout (gpio s);
                  reads := reads (gpio s);
                  trace := e :: trace (gpio s) |} |}).

Definition lgGpioWrite (level : bool) : M state unit := emit (ClockWrite level).

Definition lgGpioRead : M state Z :=
  fun s =>
    let v := dout (gpio s) (reads (gpio s)) in
    (Ok v,
     {| this := this s;
        gpio := {| dout := dout (gpio s);
                   reads := S (reads (gpio s));
                   trace := DataRead v :: trace (gpio s) |} |}).

Definition _delayMicroseconds (us : Z) : M state unit := emit (Delay us).

Definition lguSleep (duration : Z) : M state unit := emit (Sleep duration).

Definition update (f : object -> object) : M state unit :=
  modify (fun s => {| this := f (this s); gpio := gpio s |}).

Definition field {T} (f : object -> T) : M state T :=
  fun s => (Ok (f (this s)), s).

Definition set_gpioHandle (h : Z) (o : object) : object :=
  {| _gpioHandle := h; _dataPin := _dataPin o; _clockPin := _clockPin o;
     _maxWait := _maxWait o; _lastVal := _lastVal o;
     _watchState := _watchState o; _notReadySleep := _notReadySleep o;
     _saturatedSleep := _saturatedSleep o; _pollSleep := _pollSleep o;
     _channel := _channel o; _gain := _gain o;
     _bitFormat := _bitFormat o; _byteFormat := _byteFormat o |}.

Definition set_maxWait (w : Z) (o : object) : object :=
  {| _gpioHandle := _gpioHandle o; _dataPin := _dataPin o;
     _clockPin := _clockPin o;
     _maxWait := w; _lastVal := _lastVal o;
     _watchState := _watchState o; _notReadySleep := _notReadySleep o;
     _saturatedSleep := _saturatedSleep o; _pollSleep := _pollSleep o;
     _channel := _channel o; _gain := _gain o;
     _bitFormat := _bitFormat o; _byteFormat := _byteFormat o |}.

Definition set_lastVal (v : Z) (o : object) : object :=
  {| _gpioHandle := _gpioHandle o; _dataPin := _dataPin o;
     _clockPin := _clockPin o;
     _maxWait := _maxWait o; _lastVal := v;
     _watchState := _watchState o; _notReadySleep := _notReadySleep o;
     _saturatedSleep := _saturatedSleep o; _pollSleep := _pollSleep o;
     _channel := _channel o; _gain := _gain o;
     _bitFormat := _bitFormat o; _byteFormat := _byteFormat o |}.

Definition set_watchState (w : PinWatchState) (o : object) : object :=
  {| _gpioHandle := _gpioHandle o; _dataPin := _dataPin o;
     _clockPin := _clockPin o;
     _maxWait := _maxWait o; _lastVal := _lastVal o;
     _watchState := w; _notReadySleep := _notReadySleep o;
     _saturatedSleep := _saturatedSleep o; _pollSleep := _pollSleep o;
     _channel := _channel o; _gain := _gain o;
     _bitFormat := _bitFormat o; _byteFormat := _byteFormat o |}.

Definition set_channel (c : Channel) (o : object) : object :=
  {| _gpioHandle := _gpioHandle o; _dataPin := _dataPin o;
     _clockPin := _clockPin o;
     _maxWait := _maxWait o; _lastVal := _lastVal o;
     _watchState := _watchState o; _notReadySleep := _notReadySleep o;
     _saturatedSleep := _saturatedSleep o; _pollSleep := _pollSleep o;
     _channel := c; _gain := _gain o;
     _bitFormat := _bitFormat o; _byteFormat := _byteFormat o |}.

Definition set_gain (g : Gain) (o : object) : object :=
  {| _gpioHandle := _gpioHandle o; _dataPin := _dataPin o;
     _clockPin := _clockPin o;
     _maxWait := _maxWait o; _lastVal := _lastVal o;
     _watchState := _watchState o; _notReadySleep := _notReadySleep o;
     _saturatedSleep := _saturatedSleep o; _pollSleep := _pollSleep o;
     _channel := _channel o; _gain := g;
     _bitFormat := _bitFormat o; _byteFormat := _byteFormat o |}.

Definition set_bitFormat (f : Format) (o : object) : object :=
  {| _gpioHandle := _gpioHandle o; _dataPin := _dataPin o;
     _clockPin := _clockPin o;
     _maxWait := _maxWait o; _lastVal := _lastVal o;
     _watchState := _watchState o; _notReadySleep := _notReadySleep o;
     _saturatedSleep := _saturatedSleep o; _pollSleep := _pollSleep o;
     _channel := _channel o; _gain := _gain o;
     _bitFormat := f; _byteFormat := _byteFormat o |}.

Definition set_byteFormat (f : Format) (o : object) : object :=
  {| _gpioHandle := _gpioHandle o; _dataPin := _dataPin o;
     _clockPin := _clockPin o;
     _maxWait := _maxWait o; _lastVal := _lastVal o;
     _watchState := _watchState o; _notReadySleep := _notReadySleep o;
     _saturatedSleep := _saturatedSleep o; _pollSleep := _pollSleep o;
     _channel := _channel o; _gain := _gain o;
     _bitFormat := _bitFormat o; _byteFormat := f |}.

Local Open Scope monad_scope.

(** [HX711::_convertFromTwosComplement] *)
Definition _convertFromTwosComplement (val : Z) : Z :=
  - (Z.land val 0x800000) + (Z.land val 0x7fffff).

(** [HX711::_isSaturated] *)
Definition _isSaturated (v : Z) : bool :=
  (v =? HX_MIN_VALUE) || (v =? HX_MAX_VALUE).

(** [HX711::_readBit] *)
Definition _readBit : M state bool :=
  lgGpioWrite true ;;;
  _delayMicroseconds 1 ;;;
  level <- lgGpioRead ;;
  let bit := level =? 1 in
  lgGpioWrite false ;;;
  _delayMicroseconds 1 ;;;
  ret bit.

(** [HX711::_readByte]; [val] is a [std::uint8_t]. *)
Definition _readByte : M state Z :=
  for_loop 8
    (fun val =>
       fmt <- field _bitFormat ;;
       if Format_eqb fmt MSB then
         let val1 := Z.shiftl val 1 mod 256 in
         bit <- _readBit ;;
         ret (Z.lor val1 (Z.b2z bit))
       else
         let val1 := Z.shiftr val 1 in
         bit <- _readBit ;;
         ret (Z.lor val1 (Z.b2z bit * 0x80) mod 256))
    0.

(** The first loop of [_readRawBytes]: [raw[i] = _readByte()]. *)
Definition read_raw : M state (list Z) :=
  for_loop (Z.to_nat _BYTES_PER_CONVERSION_PERIOD)
    (fun raw => b <- _readByte ;; ret (raw ++ [b]))
    [].

(** [pulsesNeeded], a [std::uint8_t]. *)
Definition pulsesNeeded (g : Gain) : Z :=
  (PULSES g - 8 * _BYTES_PER_CONVERSION_PERIOD) mod 256.

(** Swapping [raw[0]] and [raw[_BYTES_PER_CONVERSION_PERIOD - 1]]. *)
Definition swap_ends (raw : list Z) : list Z :=
  match raw with
  | [r0; r1; r2] => [r2; r1; r0]
  | _ => raw
  end.

(** [HX711::_readRawBytes]; [bytes] tells whether a destination array was
    passed ([false] stands for [nullptr]), and the result is what is copied
    into it.  The two mutexes leave no mark on a sequential run. *)
Definition _readRawBytes (bytes : bool) : M state (option (list Z)) :=
  _delayMicroseconds 1 ;;;
  raw <- read_raw ;;
  g <- field _gain ;;
  for_loop (Z.to_nat (pulsesNeeded g)) (fun _ => _readBit ;;; ret tt) tt ;;;
  if negb bytes then ret None
  else
    fmt <- field _byteFormat ;;
    ret (Some (if Format_eqb fmt LSB then swap_ends raw else raw)).

(** [HX711::_readInt] *)
Definition _readInt : M state Z :=
  bytes <- _readRawBytes true ;;
  let b (i : nat) := nth i (match bytes with Some l => l | None => [] end) 0 in
  let twosComp :=
    Z.lor (Z.lor (Z.lor (Z.shiftl 0 24) (Z.shiftl (b 0%nat) 16))
                 (Z.shiftl (b 1%nat) 8))
          (b 2%nat) in
  ret (_convertFromTwosComplement twosComp).

(** [HX711::isReady] *)
Definition isReady : M state bool :=
  level <- lgGpioRead ;;
  ret (level =? 0).

(** One pass through the body of the [for(;;)] of [HX711::_watchPin].  The
    result tells whether the loop goes on ([false] is the [break]). *)
Definition _watchPin_body : M state bool :=
  ws <- field _watchState ;;
  if PinWatchState_eqb ws END then ret false
  else if PinWatchState_eqb ws PAUSE then
    emit Yield ;;;
    ret true
  else
    ready <- isReady ;;
    if negb ready then
      d <- field _notReadySleep ;;
      lguSleep d ;;;
      ret true
    else
      v <- _readInt ;;
      if _isSaturated v then
        d <- field _saturatedSleep ;;
        lguSleep d ;;;
        ret true
      else
        update (set_lastVal v) ;;;
        emit (NotifyAll v) ;;;
        d <- field _pollSleep ;;
        lguSleep d ;;;
        ret true.

(** [HX711::_watchPin], cut after [fuel] passes: the loop of the source
    has no bound of its own. *)
Fixpoint _watchPin (fuel : nat) : M state unit :=
  match fuel with
  | O => ret tt
  | S fuel' =>
      continue <- _watchPin_body ;;
      if continue then _watchPin fuel' else ret tt
  end.

(** [HX711::HX711]; the data line and the empty trace come with it. *)
Definition HX711_ctor (dflt : Defaults) (line : nat -> Z)
    (dataPin clockPin : Z) : state :=
  {| this :=
       {| _gpioHandle := -1;
          _dataPin := dataPin;
          _clockPin := clockPin;
          _maxWait := _DEFAULT_MAX_WAIT dflt;
          _lastVal := HX_MAX_VALUE;
          _watchState := NONE;
          _notReadySleep := _DEFAULT_NOT_READY_SLEEP dflt;
          _saturatedSleep := _DEFAULT_SATURATED_SLEEP dflt;
          _pollSleep := _DEFAULT_POLL_SLEEP dflt;
          _channel := A;
          _gain := GAIN_128;
          _bitFormat := MSB;
          _byteFormat := MSB |};
     gpio := {| dout := line; reads := 0; trace := [] |} |}.

(** [HX711::getValue]; [woken] is what [_dataReady.wait_for] returned. *)
Definition getValue (woken : cv_status) : M state Z :=
  match woken with
  | timeout => throw TimeoutException
  | no_timeout => field _lastVal
  end.

(** [HX711::getChannel] and [HX711::getGain] *)
Definition getChannel (s : state) : Channel := _channel (this s).
Definition getGain (s : state) : Gain := _gain (this s).

(** The body of [HX711::setConfig], with the call [this->_readRawBytes()]
    inside the [try] block left open as [transaction]. *)
Definition setConfig_with (transaction : M state unit)
    (c : Channel) (g : Gain) : M state unit :=
  if Channel_eqb c A && Gain_eqb g GAIN_32 then throw InvalidArgument
  else if Channel_eqb c B && negb (Gain_eqb g GAIN_32) then
    throw InvalidArgument
  else
    backupChannel <- field _channel ;;
    backupGain <- field _gain ;;
    catch_timeout
      (update (set_channel c) ;;;
       update (set_gain g) ;;;
       transaction)
      (update (set_channel backupChannel) ;;;
       update (set_gain backupGain) ;;;
       throw TimeoutException).

(** [HX711::setConfig] *)
Definition setConfig (c : Channel) (g : Gain) : M state unit :=
  setConfig_with (_readRawBytes false ;;; ret tt) c g.

(** [HX711::setMaxWaitTime], [setBitFormat], [setByteFormat] *)
Definition setMaxWaitTime (maxWait : Z) : M state unit :=
  update (set_maxWait maxWait).
Definition setBitFormat (f : Format) : M state unit :=
  update (set_bitFormat f).
Definition setByteFormat (f : Format) : M state unit :=
  update (set_byteFormat f).

(** [HX711::powerDown] *)
Definition powerDown : M state unit :=
  update (set_watchState PAUSE) ;;;
  lgGpioWrite false ;;;
  _delayMicroseconds 1 ;;;
  lgGpioWrite true ;;;
  _delayMicroseconds 60.

(** [HX711::powerUp] *)
Definition powerUp : M state unit :=
  update (set_watchState NORMAL) ;;;
  lgGpioWrite false ;;;
  g <- field _gain ;;
  if negb (Gain_eqb g GAIN_128) then
    c <- field _channel ;;
    setConfig c g
  else ret tt.

(** [HX711::begin]; [handle], [claimIn] and [claimOut] are what the three
    calls into the GPIO library return, the second and third being made
    only when the ones before succeeded. *)
Definition begin (handle claimIn claimOut : Z) : M state unit :=
  update (set_gpioHandle handle) ;;;
  emit (ChipOpen handle) ;;;
  opened <-
    (if 0 <=? handle then
       emit (ClaimInput claimIn) ;;;
       if claimIn =? 0 then
         emit (ClaimOutput claimOut) ;;;
         ret (claimOut =? 0)
       else ret false
     else ret false) ;;
  if negb opened then throw RuntimeError
  else
    powerDown ;;;
    powerUp ;;;
    c <- field _channel ;;
    g <- field _gain ;;
    setConfig c g ;;;
    emit ThreadStart.

(** A call made on the driver, or one pass of its watcher. *)
Inductive call : Type :=
| call_begin (handle claimIn claimOut : Z)
| call_setMaxWaitTime (maxWait : Z)
| call_isReady
| call_getValue (woken : cv_status)
| call_setConfig (c : Channel) (g : Gain)
| call_setBitFormat (f : Format)
| call_setByteFormat (f : Format)
| call_powerDown
| call_powerUp
| watcher_pass.

Definition perform (k : call) (s : state) : state :=
  match k with
  | call_begin h i o => snd (begin h i o s)
  | call_setMaxWaitTime w => snd (setMaxWaitTime w s)
  | call_isReady => snd (isReady s)
  | call_getValue w => snd (getValue w s)
  | call_setConfig c g => snd (setConfig c g s)
  | call_setBitFormat f => snd (setBitFormat f s)
  | call_setByteFormat f => snd (setByteFormat f s)
  | call_powerDown => snd (powerDown s)
  | call_powerUp => snd (powerUp s)
  | watcher_pass => snd (_watchPin_body s)
  end.

(** The state after a history of calls, oldest first. *)
Definition after (history : list call) (s : state) : state :=
  fold_left (fun s k => perform k s) history s.

(** The values announced to the waiting readers, newest first. *)
Fixpoint published (tr : list event) : list Z :=
  match tr with
  | [] => []
  | NotifyAll v :: tr' => v :: published tr'
  | _ :: tr' => published tr'
  end.

(** The rising edges put on the clock line. *)
Fixpoint pulses (tr : list event) : Z :=
  match tr with
  | [] => 0
  | ClockWrite true :: tr' => 1 + pulses tr'
  | _ :: tr' => pulses tr'
  end.

(** The three pairings of channel and gain the chip offers. *)
Definition valid_config (c : Channel) (g : Gain) : bool :=
  match c, g with
  | A, GAIN_128 | A, GAIN_64 | B, GAIN_32 => true
  | _, _ => false
  end.

(** The 24-bit two's-complement field the chip shifts out for [n]; the
    driver only decodes, this is the chip's side of the round trip. *)
Definition twosComplement24 (n : Z) : Z := n mod 2 ^ 24.

(** The state in which [setConfig] makes its transaction: the new channel
    and gain are stored already. *)
Definition staged (c : Channel) (g : Gain) (s : state) : state :=
  {| this := set_gain g (set_channel c (this s)); gpio := gpio s |}.

(** Running [m] from a state where [P] holds ends in a state where [P]
    holds, whether [m] returns or fails. *)
Definition keeps {T} (P : state -> Prop) (m : M state T) : Prop :=
  forall s, P s -> P (snd (m s)).

(** The stored pairing is one the chip offers. *)
Definition config_ok (s : state) : Prop :=
  valid_config (_channel (this s)) (_gain (this s)) = true.

(** Nothing is stored in [_lastVal] and nothing is announced. *)
Definition quiet (s s' : state) : Prop :=
  _lastVal (this s') = _lastVal (this s)
  /\ published (trace (gpio s')) = published (trace (gpio s)).

(** As long as nothing was announced, [_lastVal] is what the constructor
    stored. *)
Definition unpublished_ok (s : state) : Prop :=
  published (trace (gpio s)) = [] -> _lastVal (this s) = HX_MAX_VALUE.

(** Figures for the concrete runs. *)
Definition bench_defaults : Defaults :=
  {| _DEFAULT_MAX_WAIT := 1000000000;
     _DEFAULT_NOT_READY_SLEEP := 7;
     _DEFAULT_SATURATED_SLEEP := 500;
     _DEFAULT_POLL_SLEEP := 10000 |}.

(** A data line that is high at every read: the chip is never ready. *)
Definition high_line : nat -> Z := fun _ => 1.

(** A data line that is low at every read: the chip is ready and shifts
    out only zeros. *)
Definition low_line : nat -> Z := fun _ => 0.

Definition bench_driver : state := HX711_ctor bench_defaults low_line 5 6.

(** A data line on which a driver that has just begun finds the chip ready
    and then shifts out [0x7fffff]: reads 0 to 24 belong to [begin], read 25
    is the readiness check and read 26 the top bit. *)
Definition saturating_line : nat -> Z :=
  fun k => if (Nat.eqb k 25 || Nat.eqb k 26)%bool then 0 else 1.

(** [m], started in [s], returns normally, leaves the data members and the
    data line as they are, puts [k] pulses on the clock line and announces
    nothing. *)
Definition transacts {T} (m : M state T) (s : state) (k : Z) : Prop :=
  exists (a : T) (s' : state),
    m s = (Ok a, s')
    /\ this s' = this s
    /\ dout (gpio s') = dout (gpio s)
    /\ pulses (trace (gpio s')) = k + pulses (trace (gpio s))
    /\ published (trace (gpio s')) = published (trace (gpio s)).

(** [HX711::getDataPin], [getClockPin], [getBitFormat], [getByteFormat] *)
Definition getDataPin (s : state) : Z := _dataPin (this s).
Definition getClockPin (s : state) : Z := _clockPin (this s).
Definition getBitFormat (s : state) : Format := _bitFormat (this s).
Definition getByteFormat (s : state) : Format := _byteFormat (this s).

(** Whether the [i]-th coming read of the data line finds it high. *)
Definition bit_at (s : state) (i : nat) : bool :=
  dout (gpio s) (reads (gpio s) + i)%nat =? 1.

(** The [count] coming bits of the data line from the [from]-th on. *)
Definition coming_bits (s : state) (from count : nat) : list bool :=
  map (bit_at s) (seq from count).

(** The number whose binary digits, most significant first, are [bits]. *)
Definition big_endian (bits : list bool) : Z :=
  fold_left (fun acc b => 2 * acc + Z.b2z b) bits 0.

(** The byte that eight bits make in a bit format: the first bit is the
    top bit in [MSB], the bottom bit in [LSB]. *)
Definition byte_of (fmt : Format) (bits : list bool) : Z :=
  match fmt with
  | MSB => big_endian bits
  | LSB => big_endian (rev bits)
  end.

(** The [k]-th coming byte of the data line in the stored bit format. *)
Definition coming_byte (s : state) (k : nat) : Z :=
  byte_of (_bitFormat (this s)) (coming_bits s (8 * k) 8).

(** The three coming bytes in the order the stored byte format asks for. *)
Definition coming_bytes (s : state) : list Z :=
  match _byteFormat (this s) with
  | MSB => [coming_byte s 0; coming_byte s 1; coming_byte s 2]
  | LSB => [coming_byte s 2; coming_byte s 1; coming_byte s 0]
  end.

(** The bits of the 24-bit field of [n], in the order the chip shifts them
    out: most significant first. *)
Definition shifted_out (n : Z) : list bool :=
  map (fun i => Z.testbit (twosComplement24 n) (Z.of_nat (23 - i)))
      (seq 0 24).

(** One turn of the loop of [_readByte] on the byte in the making. *)
Definition shift_in (fmt : Format) (val : Z) (bit : bool) : Z :=
  if Format_eqb fmt MSB then Z.lor (Z.shiftl val 1 mod 256) (Z.b2z bit)
  else Z.lor (Z.shiftr val 1) (Z.b2z bit * 0x80) mod 256.

(** [m], started in [s], returns [a], leaves the data members and the data
    line as they are and samples the data line [n] times. *)
Definition shifts {T} (m : M state T) (s : state) (n : nat) (a : T) : Prop :=
  exists s' : state,
    m s = (Ok a, s')
    /\ this s' = this s
    /\ dout (gpio s') = dout (gpio s)
    /\ reads (gpio s') = (reads (gpio s) + n)%nat.

(** The level last written to the clock line, if any was. *)
Fixpoint clock_level (tr : list event) : option bool :=
  match tr with
  | [] => None
  | ClockWrite level :: _ => Some level
  | _ :: tr' => clock_level tr'
  end.

(** The clock line is not left high while the watcher is not paused: a
    clock held high for 60 microseconds powers the chip down. *)
Definition clock_safe (s : state) : Prop :=
  clock_level (trace (gpio s)) <> Some true \/ _watchState (this s) = PAUSE.

(** The clock line was driven low last. *)
Definition clock_low (s : state) : Prop :=
  clock_level (trace (gpio s)) = Some false.

(** [m] always ends with the clock line driven low. *)
Definition lowers {T} (m : M state T) : Prop :=
  forall s, clock_low (snd (m s)).

(** The pins are the ones given. *)
Definition wired (dataPin clockPin : Z) (s : state) : Prop :=
  _dataPin (this s) = dataPin /\ _clockPin (this s) = clockPin.

(** [_lastVal] is the newest published value, or what the constructor
    stored when none was published. *)
Definition latest_ok (s : state) : Prop :=
  _lastVal (this s) = hd HX_MAX_VALUE (published (trace (gpio s))).

End HX711.

(** ** The scale abstraction, [AbstractScale.cpp] *)

Module AbstractScale.

(** Modelled from the spec: [Value.h] is not among the sources.  Raw samples
    are signed integers; [Value] is taken as a 32-bit signed integer. *)
Definition Value : Type := Z.
Definition VALUE_MIN : Z := - 2 ^ 31.
Definition VALUE_MAX : Z := 2 ^ 31 - 1.

(** Modelled from the spec: [AbstractScale.h] is not among the sources.  The
    two aggregation kinds the source names, and any other value of the
    enumeration's underlying type, which [read] sends to its [default]. *)
Inductive ReadType : Type := Median | Average | OtherReadType.

(** *** Arithmetic on [double] *)

(** The conversion of an integer to [double], rounding to nearest even. *)
Definition of_Z (z : Z) : float :=
  SF2Prim (binary_normalize prec emax z 0 false).

(** [std::round]: to the nearest integer, halfway cases away from zero. *)
Definition std_round (x : float) : float :=
  match Prim2SF x with
  | S754_finite s m e =>
      if 0 <=? e then x
      else
        let magnitude := (Zpos m + 2 ^ (- e - 1)) / 2 ^ (- e) in
        if s then (- of_Z magnitude)%float else of_Z magnitude
  | _ => x
  end.

(** [static_cast<Value>] of a [double]: truncation toward zero, and no
    defined result when the truncated value does not fit. *)
Definition static_cast_Value (x : float) : result Value :=
  match Prim2SF x with
  | S754_zero _ => Ok 0
  | S754_finite s m e =>
      let magnitude :=
        if 0 <=? e then Zpos m * 2 ^ e else Zpos m / 2 ^ (- e) in
      let z := if s then - magnitude else magnitude in
      if (VALUE_MIN <=? z) && (z <=? VALUE_MAX) then Ok z else Err Undefined
  | _ => Err Undefined
  end.

(** *** The aggregation helpers *)

Fixpoint insert_sorted (x : Z) (l : list Z) : list Z :=
  match l with
  | [] => [x]
  | y :: l' => if x <=? y then x :: l else y :: insert_sorted x l'
  end.

Definition sort_ascending (l : list Z) : list Z :=
  fold_right insert_sorted [] l.

(** Modelled from the spec: [Utility.h] is not among the sources.  "Sort
    ascending; odd count: middle element; even count: arithmetic mean of the
    two middle elements".  The spec gives no value for an empty sequence. *)
Definition median (vals : list Value) : float :=
  let sorted := sort_ascending vals in
  let n := length vals in
  let lower := nth (n / 2 - 1)%nat sorted 0 in
  let upper := nth (n / 2)%nat sorted 0 in
  if Nat.even n then ((of_Z lower + of_Z upper) / 2)%float
  else of_Z upper.

(** Modelled from the spec: "arithmetic mean of all samples". *)
Definition average (vals : list Value) : float :=
  let sum := fold_right Z.add 0 vals in
  let size := Z.of_nat (length vals) in
  (of_Z sum / of_Z size)%float.

(** *** The raw-value source and the state *)

(** The pure virtual [getValues]: whatever provides the samples has a state
    of its own, and may fail. *)
Class RawSource (Src : Type) : Type := {
  getValues : nat -> M Src (list Value)
}.

(** The data members of the class; [Unit] stands for [Mass::Unit]. *)
Record object (Unit : Type) : Type := {
  _massUnit : Unit;
  _refUnit : Value;
  _offset : Value
}.
Arguments _massUnit {Unit} o.
Arguments _refUnit {Unit} o.
Arguments _offset {Unit} o.

Record state (Unit Src : Type) : Type := {
  this : object Unit;
  source : Src
}.
Arguments this {Unit Src} s.
Arguments source {Unit Src} s.

Section Scale.

Context {Unit Src : Type} {provider : RawSource Src}.

(** Whether the build defines [NDEBUG], which compiles [assert] away. *)
Variable NDEBUG : bool.

Local Open Scope monad_scope.

Definition update (f : object Unit -> object Unit) : M (state Unit Src) unit :=
  modify (fun s => {| this := f (this s); source := source s |}).

Definition field {T} (f : object Unit -> T) : M (state Unit Src) T :=
  fun s => (Ok (f (this s)), s).

Definition set_massUnit (u : Unit) (o : object Unit) : object Unit :=
  {| _massUnit := u; _refUnit := _refUnit o; _offset := _offset o |}.

Definition set_refUnit (r : Value) (o : object Unit) : object Unit :=
  {| _massUnit := _massUnit o; _refUnit := r; _offset := _offset o |}.

Definition set_offset (v : Value) (o : object Unit) : object Unit :=
  {| _massUnit := _massUnit o; _refUnit := _refUnit o; _offset := v |}.

(** [this->getValues(samples)] *)
Definition sample (samples : nat) : M (state Unit Src) (list Value) :=
  fun s =>
    let (r, src) := getValues samples (source s) in
    (r, {| this := this s; source := src |}).

(** Lifting a result that touches no state. *)
Definition lift {T} (r : result T) : M (state Unit Src) T := fun s => (r, s).

(** [AbstractScale::AbstractScale] *)
Definition AbstractScale_ctor (src : Src) (massUnit : Unit)
    (refUnit offset : Value) : state Unit Src :=
  {| this :=
       {| _massUnit := massUnit; _refUnit := refUnit; _offset := offset |};
     source := src |}.

(** [setUnit], [getUnit], [getReferenceUnit], [getOffset], [setOffset] *)
Definition setUnit (u : Unit) : M (state Unit Src) unit :=
  update (set_massUnit u).
Definition getUnit (s : state Unit Src) : Unit := _massUnit (this s).
Definition getReferenceUnit (s : state Unit Src) : Value := _refUnit (this s).
Definition getOffset (s : state Unit Src) : Value := _offset (this s).
Definition setOffset (offset : Value) : M (state Unit Src) unit :=
  update (set_offset offset).

(** [AbstractScale::setReferenceUnit] *)
Definition setReferenceUnit (refUnit : Value) : M (state Unit Src) unit :=
  if refUnit =? 0 then throw InvalidArgument
  else update (set_refUnit refUnit).

(** [AbstractScale::normalise] *)
Definition normalise (v : float) : M (state Unit Src) float :=
  refUnit <- field _refUnit ;;
  if negb NDEBUG && (refUnit =? 0) then throw AssertionFailed
  else
    offset <- field _offset ;;
    ret ((v - of_Z offset) / of_Z refUnit)%float.

(** The [switch] of [AbstractScale::read]. *)
Definition aggregate (rt : ReadType) (vals : list Value) : result float :=
  match rt with
  | Median => Ok (median vals)
  | Average => Ok (average vals)
  | OtherReadType => Err InvalidArgument
  end.

(** [AbstractScale::read] *)
Definition read (rt : ReadType) (samples : nat) : M (state Unit Src) float :=
  if Nat.eqb samples 0 then throw RangeError
  else
    vals <- sample samples ;;
    val <- lift (aggregate rt vals) ;;
    normalise val.

(** [AbstractScale::zero] *)
Definition zero (rt : ReadType) (samples : nat) : M (state Unit Src) unit :=
  if Nat.eqb samples 0 then throw RangeError
  else
    backup <- field _refUnit ;;
    setReferenceUnit 1 ;;;
    x <- read rt samples ;;
    offset <- lift (static_cast_Value (std_round x)) ;;
    update (set_offset offset) ;;;
    setReferenceUnit backup.

(** [AbstractScale::weight]; the mass is its magnitude with its unit. *)
Definition weight (rt : ReadType) (samples : nat)
    : M (state Unit Src) (float * Unit) :=
  x <- read rt samples ;;
  u <- field _massUnit ;;
  ret (x, u).

(** A call made on the scale. *)
Inductive call : Type :=
| call_setUnit (u : Unit)
| call_setReferenceUnit (refUnit : Value)
| call_setOffset (offset : Value)
| call_normalise (v : float)
| call_read (rt : ReadType) (samples : nat)
| call_zero (rt : ReadType) (samples : nat)
| call_weight (rt : ReadType) (samples : nat).

Definition perform (k : call) (s : state Unit Src) : state Unit Src :=
  match k with
  | call_setUnit u => snd (setUnit u s)
  | call_setReferenceUnit r => snd (setReferenceUnit r s)
  | call_setOffset v => snd (setOffset v s)
  | call_normalise v => snd (normalise v s)
  | call_read rt n => snd (read rt n s)
  | call_zero rt n => snd (zero rt n s)
  | call_weight rt n => snd (weight rt n s)
  end.

(** The state after a history of calls, oldest first. *)
Definition after (history : list call) (s : state Unit Src) : state Unit Src :=
  fold_left (fun s k => perform k s) history s.

End Scale.

(** A raw-value source for concrete runs: it hands out the samples of a
    queue in order, counts them, and times out when the queue runs short. *)
Record queue : Type := {
  pending : list Value;
  handed : nat
}.

Definition queue_getValues (n : nat) : M queue (list Value) :=
  fun q =>
    if (n <=? length (pending q))%nat then
      (Ok (firstn n (pending q)),
       {| pending := skipn n (pending q); handed := handed q + n |})
    else (Err TimeoutException, q).

#[export] Instance queue_source : RawSource queue :=
  {| getValues := queue_getValues |}.

(** The units of the concrete runs. *)
Inductive unit_tag : Type := gram | kilogram.

(** Scales for the concrete runs: one whose source has a sample to give,
    one whose source has none and times out. *)
Definition bench_scale : state unit_tag queue :=
  AbstractScale_ctor {| pending := [1500]; handed := 0 |} gram 100 500.

Definition starved_scale : state unit_tag queue :=
  AbstractScale_ctor {| pending := []; handed := 0 |} gram 100 500.

End AbstractScale.

(** * Properties of the protocol driver *)

Section DriverProperties.

Import HX711.

(** ** Decoding the 24-bit field *)

Lemma land_sign_bit (f : Z) :
  Z.land f 0x800000 = if Z.testbit f 23 then 0x800000 else 0.
Proof.
  apply Z.bits_inj'. intros n Hn.
  rewrite Z.land_spec.
  change 0x800000 with (2 ^ 23).
  rewrite Z.pow2_bits_eqb by lia.
  destruct (Z.eqb_spec 23 n) as [<- | Hne].
  - rewrite andb_true_r.
    destruct (Z.testbit f 23); [ | rewrite Z.bits_0; reflexivity ].
    rewrite Z.pow2_bits_eqb by lia. reflexivity.
  - rewrite andb_false_r.
    destruct (Z.testbit f 23); [ | rewrite Z.bits_0; reflexivity ].
    rewrite Z.pow2_bits_eqb by lia.
    symmetry. apply Z.eqb_neq. exact Hne.
Qed.

Lemma land_magnitude_bits (f : Z) : Z.land f 0x7fffff = f mod 2 ^ 23.
Proof. change 0x7fffff with (Z.ones 23). apply Z.land_ones. lia. Qed.

Lemma sign_bit_of_field (f : Z) :
  0 <= f < 2 ^ 24 -> Z.testbit f 23 = (2 ^ 23 <=? f).
Proof.
  intros Hf.
  rewrite Z.testbit_eqb by lia.
  destruct (Z.leb_spec (2 ^ 23) f) as [Hge | Hlt].
  - assert (f / 2 ^ 23 = 1) as ->
      by (symmetry; apply Z.div_unique with (r := f - 2 ^ 23); lia).
    reflexivity.
  - rewrite Z.div_small by lia. reflexivity.
Qed.

Lemma decode_range (f : Z) :
  - 2 ^ 23 <= _convertFromTwosComplement f <= 2 ^ 23 - 1.
Proof.
  unfold _convertFromTwosComplement.
  rewrite land_sign_bit, land_magnitude_bits.
  pose proof (Z.mod_pos_bound f (2 ^ 23) ltac:(lia)) as Hm.
  destruct (Z.testbit f 23); lia.
Qed.

Lemma decode_encode (n : Z) :
  - 2 ^ 23 <= n <= 2 ^ 23 - 1 ->
  _convertFromTwosComplement (twosComplement24 n) = n.
Proof.
  intros Hn. unfold _convertFromTwosComplement, twosComplement24.
  rewrite land_sign_bit, land_magnitude_bits.
  rewrite sign_bit_of_field by (apply Z.mod_pos_bound; lia).
  destruct (Z_lt_le_dec n 0) as [Hneg | Hpos].
  - assert (n mod 2 ^ 24 = n + 2 ^ 24) as ->
      by (symmetry; apply Z.mod_unique with (q := -1); lia).
    destruct (Z.leb_spec (2 ^ 23) (n + 2 ^ 24)); [ | lia ].
    assert ((n + 2 ^ 24) mod 2 ^ 23 = n + 2 ^ 23) as ->
      by (symmetry; apply Z.mod_unique with (q := 1); lia).
    lia.
  - rewrite (Z.mod_small n (2 ^ 24)) by lia.
    destruct (Z.leb_spec (2 ^ 23) n); [ lia | ].
    rewrite Z.mod_small by lia. lia.
Qed.

(** C5.  For every integer [n] of [-2^23, 2^23-1], decoding the 24-bit
    two's-complement field of [n] with [-(f & 0x800000) + (f & 0x7fffff)]
    gives [n] back, and whatever is decoded lies in [-2^23, 2^23-1]. *)
Theorem C5_twos_complement_round_trip (n : Z) :
  - 2 ^ 23 <= n <= 2 ^ 23 - 1 ->
  _convertFromTwosComplement (twosComplement24 n) = n
  /\ (forall f : Z, - 2 ^ 23 <= _convertFromTwosComplement f <= 2 ^ 23 - 1).
Proof.
  intros Hn. split.
  - apply decode_encode. exact Hn.
  - apply decode_range.
Qed.

Lemma C5_witness :
  - 2 ^ 23 <= -5 <= 2 ^ 23 - 1
  /\ _convertFromTwosComplement (twosComplement24 (-5)) = -5
  /\ (forall f : Z, - 2 ^ 23 <= _convertFromTwosComplement f <= 2 ^ 23 - 1).
Proof.
  split; [ lia | ].
  apply (C5_twos_complement_round_trip (-5)). lia.
Defined.

(** ** Saturation *)

(** C6.  The saturation predicate holds of [v] exactly when [v] is [-2^23]
    or [2^23-1]. *)
Theorem C6_saturated_iff_extreme (v : Z) :
  _isSaturated v = true <-> v = - 2 ^ 23 \/ v = 2 ^ 23 - 1.
Proof.
  unfold _isSaturated, HX_MIN_VALUE, HX_MAX_VALUE.
  rewrite orb_true_iff, !Z.eqb_eq. lia.
Qed.

(** ** The bus transaction *)

Lemma transacts_ret {T} (a : T) (s : state) : transacts (ret a) s 0.
Proof. exists a, s. repeat split; reflexivity. Qed.

Lemma transacts_bind {T U} (m : M state T) (f : T -> M state U)
    (s : state) (k1 k2 : Z) :
  transacts m s k1 ->
  (forall a s', this s' = this s -> transacts (f a) s' k2) ->
  transacts (bind m f) s (k1 + k2).
Proof.
  intros (a & s1 & E1 & T1 & D1 & P1 & Q1) Hf.
  destruct (Hf a s1 T1) as (b & s2 & E2 & T2 & D2 & P2 & Q2).
  exists b, s2. unfold bind. rewrite E1.
  repeat split; [ exact E2 | congruence | congruence | lia | congruence ].
Qed.

Lemma transacts_field {T} (f : object -> T) (s : state) :
  transacts (field f) s 0.
Proof. exists (f (this s)), s. repeat split; reflexivity. Qed.

Lemma transacts_delay (us : Z) (s : state) :
  transacts (_delayMicroseconds us) s 0.
Proof. eexists; eexists. repeat split; reflexivity. Qed.

Lemma transacts_clock_low (s : state) : transacts (lgGpioWrite false) s 0.
Proof. eexists; eexists. repeat split; reflexivity. Qed.

Lemma transacts_clock_high (s : state) : transacts (lgGpioWrite true) s 1.
Proof. eexists; eexists. repeat split; reflexivity. Qed.

Lemma transacts_read (s : state) : transacts lgGpioRead s 0.
Proof. eexists; eexists. repeat split; reflexivity. Qed.

Lemma transacts_for_loop {T} (body : T -> M state T) (k : Z) (n : nat) :
  forall (acc : T) (s : state),
    (forall a s', this s' = this s -> transacts (body a) s' k) ->
    transacts (for_loop n body acc) s (Z.of_nat n * k).
Proof.
  induction n as [ | n IH ]; intros acc s Hbody.
  - apply transacts_ret.
  - replace (Z.of_nat (S n) * k) with (k + Z.of_nat n * k) by lia.
    cbn [for_loop]. apply transacts_bind.
    + apply Hbody. reflexivity.
    + intros a s' Hs'. apply IH.
      intros a' s'' Hs''. apply Hbody. congruence.
Qed.

Lemma transacts_readBit (s : state) : transacts _readBit s 1.
Proof.
  unfold _readBit.
  change 1 with (1 + (0 + (0 + (0 + (0 + 0))))).
  apply transacts_bind; [ apply transacts_clock_high | intros _ s1 _ ].
  apply transacts_bind; [ apply transacts_delay | intros _ s2 _ ].
  apply transacts_bind; [ apply transacts_read | intros level s3 _ ].
  apply transacts_bind; [ apply transacts_clock_low | intros _ s4 _ ].
  apply transacts_bind; [ apply transacts_delay | intros _ s5 _ ].
  apply transacts_ret.
Qed.

Lemma transacts_readByte (s : state) : transacts _readByte s 8.
Proof.
  unfold _readByte.
  apply (transacts_for_loop _ 1 8).
  intros val s' _.
  change 1 with (0 + 1).
  apply transacts_bind; [ apply transacts_field | intros fmt s1 _ ].
  change 1 with (1 + 0).
  destruct (Format_eqb fmt MSB);
    (apply transacts_bind; [ apply transacts_readBit | intros bit s2 _ ]);
    apply transacts_ret.
Qed.

Lemma transacts_read_raw (s : state) : transacts read_raw s 24.
Proof.
  unfold read_raw.
  apply (transacts_for_loop _ 8 3).
  intros raw s' _.
  change 8 with (8 + 0).
  apply transacts_bind; [ apply transacts_readByte | intros b s1 _ ].
  apply transacts_ret.
Qed.

Lemma pulsesNeeded_nonneg (g : Gain) : 0 <= pulsesNeeded g.
Proof. unfold pulsesNeeded. apply Z.mod_pos_bound. lia. Qed.

Lemma transacts_bind_field {T U} (f : object -> T) (k : T -> M state U)
    (s : state) (n : Z) :
  transacts (k (f (this s))) s n -> transacts (bind (field f) k) s n.
Proof. intros H. exact H. Qed.

Lemma transacts_readRawBytes (bytes : bool) (s : state) :
  transacts (_readRawBytes bytes) s (24 + pulsesNeeded (_gain (this s))).
Proof.
  unfold _readRawBytes.
  replace (24 + pulsesNeeded (_gain (this s)))
    with (0 + (24 + (pulsesNeeded (_gain (this s)) + 0))) by lia.
  apply transacts_bind; [ apply transacts_delay | intros _ s1 H1 ].
  apply transacts_bind; [ apply transacts_read_raw | intros raw s2 H2 ].
  apply transacts_bind_field.
  replace (_gain (this s2)) with (_gain (this s)) by congruence.
  apply transacts_bind.
  - replace (pulsesNeeded (_gain (this s)))
      with (Z.of_nat (Z.to_nat (pulsesNeeded (_gain (this s)))) * 1)
      at 2 by (pose proof (pulsesNeeded_nonneg (_gain (this s))); lia).
    apply transacts_for_loop.
    intros [] s3 _.
    change 1 with (1 + 0).
    apply transacts_bind; [ apply transacts_readBit | intros _ s4 _ ].
    apply transacts_ret.
  - intros _ s3 _.
    destruct bytes; cbn [negb]; [ | apply transacts_ret ].
    apply transacts_bind_field. apply transacts_ret.
Qed.

(** C7.  A raw read transaction clocks the three data bytes with 24 pulses
    and then adds trailing pulses so that the whole transaction counts 25
    pulses at gain 128, 25 at gain 32 and 27 at gain 64. *)
Theorem C7_total_pulses_per_gain (bytes : bool) (s : state) :
  pulses (trace (gpio (snd (read_raw s)))) = 24 + pulses (trace (gpio s))
  /\ exists out s',
       _readRawBytes bytes s = (Ok out, s')
       /\ pulses (trace (gpio s')) - pulses (trace (gpio s))
          = 24 + pulsesNeeded (_gain (this s))
       /\ 24 + pulsesNeeded (_gain (this s))
          = match _gain (this s) with
            | GAIN_128 => 25
            | GAIN_32 => 25
            | GAIN_64 => 27
            end.
Proof.
  split.
  - destruct (transacts_read_raw s) as (raw & s1 & E & _ & _ & P & _).
    rewrite E. exact P.
  - destruct (transacts_readRawBytes bytes s) as (out & s' & E & _ & _ & P & _).
    exists out, s'. split; [ exact E | ]. split; [ lia | ].
    destruct (_gain (this s)); reflexivity.
Qed.

(** ** Transactional configuration *)

Lemma setConfig_with_invalid (transaction : M state unit)
    (c : Channel) (g : Gain) (s : state) :
  valid_config c g = false ->
  setConfig_with transaction c g s = (Err InvalidArgument, s).
Proof. destruct c, g; intros H; try discriminate H; reflexivity. Qed.

Lemma setConfig_with_valid (transaction : M state unit)
    (c : Channel) (g : Gain) (s : state) :
  valid_config c g = true ->
  setConfig_with transaction c g s
  = match transaction (staged c g s) with
    | (Err TimeoutException, s1) =>
        (Err TimeoutException,
         {| this := set_gain (_gain (this s))
                      (set_channel (_channel (this s)) (this s1));
            gpio := gpio s1 |})
    | other => other
    end.
Proof.
  destruct c, g; intros H; try discriminate H;
    unfold setConfig_with, staged, catch_timeout, bind, field, update, modify,
      throw; cbn;
    destruct (transaction _) as [[ [] | [] ] s1]; reflexivity.
Qed.

(** C2.  For a valid pairing, when the transaction that carries the new
    selection to the chip fails with a timeout, [setConfig] fails with that
    timeout and the stored channel and gain are those from before the call. *)
Theorem C2_setConfig_rolls_back_on_timeout (transaction : M state unit)
    (c : Channel) (g : Gain) (s s1 : state) :
  valid_config c g = true ->
  transaction (staged c g s) = (Err TimeoutException, s1) ->
  exists s',
    setConfig_with transaction c g s = (Err TimeoutException, s')
    /\ getChannel s' = getChannel s
    /\ getGain s' = getGain s.
Proof.
  intros Hvalid Htimeout.
  rewrite setConfig_with_valid by exact Hvalid.
  rewrite Htimeout.
  eexists. split; [ reflexivity | ]. split; reflexivity.
Qed.

Lemma C2_witness :
  valid_config B GAIN_32 = true
  /\ throw TimeoutException (staged B GAIN_32 bench_driver)
     = (@Err unit TimeoutException, staged B GAIN_32 bench_driver)
  /\ exists s',
       setConfig_with (throw TimeoutException) B GAIN_32 bench_driver
       = (Err TimeoutException, s')
       /\ getChannel s' = getChannel bench_driver
       /\ getGain s' = getGain bench_driver.
Proof.
  split; [ reflexivity | ]. split; [ reflexivity | ].
  apply (C2_setConfig_rolls_back_on_timeout
           (throw TimeoutException) B GAIN_32 bench_driver
           (staged B GAIN_32 bench_driver));
    reflexivity.
Defined.

Lemma setConfig_valid (c : Channel) (g : Gain) (s : state) :
  valid_config c g = true ->
  exists s',
    setConfig c g s = (Ok tt, s')
    /\ this s' = set_gain g (set_channel c (this s))
    /\ published (trace (gpio s')) = published (trace (gpio s)).
Proof.
  intros Hvalid. unfold setConfig.
  rewrite setConfig_with_valid by exact Hvalid.
  assert (transacts (_readRawBytes false ;;; ret tt)%monad (staged c g s)
            (24 + pulsesNeeded (_gain (this (staged c g s))) + 0))
    as (a & s' & E & T & _ & _ & Q).
  { apply transacts_bind; [ apply transacts_readRawBytes | ].
    intros _ s1 _. apply transacts_ret. }
  rewrite E. destruct a.
  exists s'. split; [ reflexivity | ]. split; [ exact T | exact Q ].
Qed.

Lemma setConfig_invalid (c : Channel) (g : Gain) (s : state) :
  valid_config c g = false -> setConfig c g s = (Err InvalidArgument, s).
Proof. apply setConfig_with_invalid. Qed.

(** *** What every call keeps *)

Lemma keeps_ret {T} (P : state -> Prop) (a : T) : keeps P (ret a).
Proof. intros s H. exact H. Qed.

Lemma keeps_throw {T} (P : state -> Prop) (e : failure) :
  keeps P (@throw state T e).
Proof. intros s H. exact H. Qed.

Lemma keeps_field {T} (P : state -> Prop) (f : object -> T) :
  keeps P (field f).
Proof. intros s H. exact H. Qed.

Lemma keeps_bind {T U} (P : state -> Prop) (m : M state T)
    (f : T -> M state U) :
  keeps P m -> (forall a, keeps P (f a)) -> keeps P (bind m f).
Proof.
  intros Hm Hf s H. unfold bind.
  specialize (Hm s H).
  destruct (m s) as [[a | e] s1]; cbn [snd] in *.
  - apply Hf. exact Hm.
  - exact Hm.
Qed.

Lemma keeps_transacts {T} (P : state -> Prop) (m : M state T) :
  (forall s s', this s' = this s ->
                published (trace (gpio s')) = published (trace (gpio s)) ->
                P s -> P s') ->
  (forall s, exists k, transacts m s k) ->
  keeps P m.
Proof.
  intros Hobs Hm s H.
  destruct (Hm s) as (k & a & s' & E & T' & _ & _ & Q).
  rewrite E. cbn [snd]. exact (Hobs s s' T' Q H).
Qed.

Lemma config_ok_observes (s s' : state) :
  this s' = this s ->
  published (trace (gpio s')) = published (trace (gpio s)) ->
  config_ok s -> config_ok s'.
Proof. unfold config_ok. intros -> _ H. exact H. Qed.

Lemma unpublished_ok_observes (s s' : state) :
  this s' = this s ->
  published (trace (gpio s')) = published (trace (gpio s)) ->
  unpublished_ok s -> unpublished_ok s'.
Proof. unfold unpublished_ok. intros -> -> H. exact H. Qed.

Lemma keeps_config_setConfig (c : Channel) (g : Gain) :
  keeps config_ok (setConfig c g).
Proof.
  intros s H.
  destruct (valid_config c g) eqn:Hvalid.
  - destruct (setConfig_valid c g s Hvalid) as (s' & E & T & _).
    rewrite E. cbn [snd]. unfold config_ok. rewrite T. exact Hvalid.
  - rewrite setConfig_invalid by exact Hvalid. exact H.
Qed.

Lemma keeps_unpublished_setConfig (c : Channel) (g : Gain) :
  keeps unpublished_ok (setConfig c g).
Proof.
  intros s H.
  destruct (valid_config c g) eqn:Hvalid.
  - destruct (setConfig_valid c g s Hvalid) as (s' & E & T & Q).
    rewrite E. cbn [snd]. unfold unpublished_ok. rewrite T, Q. exact H.
  - rewrite setConfig_invalid by exact Hvalid. exact H.
Qed.

Lemma transacts_readInt (s : state) :
  transacts _readInt s (24 + pulsesNeeded (_gain (this s))).
Proof.
  unfold _readInt.
  replace (24 + pulsesNeeded (_gain (this s)))
    with (24 + pulsesNeeded (_gain (this s)) + 0) by lia.
  apply transacts_bind; [ apply transacts_readRawBytes | ].
  intros bytes s1 _. apply transacts_ret.
Qed.

Ltac keeps_step :=
  first
    [ apply keeps_ret
    | apply keeps_throw
    | apply keeps_field
    | apply keeps_config_setConfig
    | apply keeps_unpublished_setConfig
    | apply keeps_bind; [ | intros ? ]
    | match goal with
      | |- keeps _ (if ?b then _ else _) => destruct b
      end
    | (let s := fresh "s" in
       let H := fresh "H" in
       intros s H; exact H) ].

Lemma keeps_config_powerDown : keeps config_ok powerDown.
Proof. unfold powerDown. repeat keeps_step. Qed.

Lemma keeps_config_powerUp : keeps config_ok powerUp.
Proof. unfold powerUp. repeat keeps_step. Qed.

Lemma keeps_config_begin (handle claimIn claimOut : Z) :
  keeps config_ok (begin handle claimIn claimOut).
Proof.
  unfold begin.
  repeat first [ apply keeps_config_powerDown
               | apply keeps_config_powerUp
               | keeps_step ].
Qed.

Lemma keeps_config_watchPin_body : keeps config_ok _watchPin_body.
Proof.
  unfold _watchPin_body, isReady.
  repeat first
    [ apply (keeps_transacts config_ok _readInt config_ok_observes);
      intros s; eexists; apply transacts_readInt
    | keeps_step ].
Qed.

Lemma perform_keeps_config (k : call) (s : state) :
  config_ok s -> config_ok (perform k s).
Proof.
  intros H.
  destruct k; cbn [perform].
  - apply keeps_config_begin. exact H.
  - exact H.
  - exact H.
  - destruct woken; exact H.
  - apply keeps_config_setConfig. exact H.
  - exact H.
  - exact H.
  - apply keeps_config_powerDown. exact H.
  - apply keeps_config_powerUp. exact H.
  - apply keeps_config_watchPin_body. exact H.
Qed.

Lemma after_keeps_config (history : list call) :
  forall s, config_ok s -> config_ok (after history s).
Proof.
  unfold after.
  induction history as [ | k history IH ]; intros s H; cbn [fold_left].
  - exact H.
  - apply IH. exact (perform_keeps_config k s H).
Qed.

(** C3.  [setConfig] succeeds on exactly the pairings (A, 128), (A, 64) and
    (B, 32), and the getters then return the new pairing; on any other
    pairing it fails with [InvalidArgument] and leaves the whole state, the
    trace of the bus included, as it was.  Hence, after any history of calls
    on a constructed driver, the stored pairing is one of the three. *)
Theorem C3_setConfig_accepts_exactly_valid_pairs
    (c : Channel) (g : Gain) (s : state) :
  (valid_config c g = true
   <-> (c, g) = (A, GAIN_128) \/ (c, g) = (A, GAIN_64) \/ (c, g) = (B, GAIN_32))
  /\ (if valid_config c g
      then fst (setConfig c g s) = Ok tt
           /\ getChannel (snd (setConfig c g s)) = c
           /\ getGain (snd (setConfig c g s)) = g
      else setConfig c g s = (Err InvalidArgument, s))
  /\ (forall dflt line dataPin clockPin history,
        valid_config
          (getChannel (after history (HX711_ctor dflt line dataPin clockPin)))
          (getGain (after history (HX711_ctor dflt line dataPin clockPin)))
        = true).
Proof.
  split; [ | split ].
  - destruct c, g; cbn; split; intros H;
      try discriminate H; try reflexivity; try tauto;
      destruct H as [H | [H | H]]; discriminate H.
  - destruct (valid_config c g) eqn:Hvalid.
    + destruct (setConfig_valid c g s Hvalid) as (s' & E & T & _).
      rewrite E. cbn [fst snd]. unfold getChannel, getGain. rewrite T.
      repeat split.
    + apply setConfig_invalid. exact Hvalid.
  - intros dflt line dataPin clockPin history.
    apply (after_keeps_config history). reflexivity.
Qed.

(** ** The watcher *)

Lemma bind_ok {S T U} (m : M S T) (f : T -> M S U) (s s' : S) (a : T) :
  m s = (Ok a, s') -> bind m f s = f a s'.
Proof. intros E. unfold bind. rewrite E. reflexivity. Qed.

Lemma bind_err {S T U} (m : M S T) (f : T -> M S U) (s s' : S) (e : failure) :
  m s = (Err e, s') -> bind m f s = (Err e, s').
Proof. intros E. unfold bind. rewrite E. reflexivity. Qed.

Lemma bind_field_eq {T U} (f : object -> T) (k : T -> M state U) (s : state) :
  bind (field f) k s = k (f (this s)) s.
Proof. reflexivity. Qed.

Lemma watchPin_body_publishes (s : state) :
  quiet s (snd (_watchPin_body s))
  \/ (_isSaturated (_lastVal (this (snd (_watchPin_body s)))) = false
      /\ published (trace (gpio (snd (_watchPin_body s))))
         = _lastVal (this (snd (_watchPin_body s)))
           :: published (trace (gpio s))).
Proof.
  assert (forall s0 : state,
             this s0 = this s ->
             published (trace (gpio s0)) = published (trace (gpio s)) ->
             let s' :=
               snd (bind isReady
                      (fun ready =>
                         if negb ready then
                           (d <- field _notReadySleep ;;
                            lguSleep d ;;; ret true)%monad
                         else
                           (v <- _readInt ;;
                            if _isSaturated v then
                              (d <- field _saturatedSleep ;;
                               lguSleep d ;;; ret true)
                            else
                              (update (set_lastVal v) ;;;
                               emit (NotifyAll v) ;;;
                               d <- field _pollSleep ;;
                               lguSleep d ;;; ret true))%monad) s0) in
             quiet s s'
             \/ (_isSaturated (_lastVal (this s')) = false
                 /\ published (trace (gpio s'))
                    = _lastVal (this s') :: published (trace (gpio s))))
    as Hread.
  { intros s0 Hthis Hpub s'. subst s'.
    erewrite (bind_ok isReady) by reflexivity.
    destruct (dout (gpio s0) (reads (gpio s0)) =? 0); cbn [negb].
    - match goal with
      | |- context [ bind _readInt ?k ?s1 ] =>
          destruct (transacts_readInt s1) as (v & s2 & E & T & _ & _ & Q);
          rewrite (bind_ok _readInt k s1 s2 v E)
      end.
      cbn [this gpio trace published] in T, Q.
      destruct (_isSaturated v) eqn:Hsat.
      + left. split; cbn; congruence.
      + right. cbn. split; [ exact Hsat | ]. congruence.
    - left. split; cbn; congruence. }
  unfold _watchPin_body.
  rewrite bind_field_eq.
  destruct (_watchState (this s)); cbn [PinWatchState_eqb].
  - apply Hread; reflexivity.
  - apply Hread; reflexivity.
  - left. split; reflexivity.
  - left. split; reflexivity.
Qed.

Lemma watchPin_publishes (fuel : nat) :
  forall s : state,
  exists news : list Z,
    published (trace (gpio (snd (_watchPin fuel s))))
    = news ++ published (trace (gpio s))
    /\ forallb (fun v => negb (_isSaturated v)) news = true
    /\ _lastVal (this (snd (_watchPin fuel s)))
       = hd (_lastVal (this s)) news.
Proof.
  induction fuel as [ | fuel IH ]; intros s.
  - exists []. repeat split.
  - cbn [_watchPin].
    pose proof (watchPin_body_publishes s) as Hbody.
    destruct (_watchPin_body s) as [[continue | e] s1] eqn:E;
      cbn [snd] in Hbody;
      [ rewrite !(bind_ok _ _ _ _ _ E) | rewrite !(bind_err _ _ _ _ _ E) ];
      cbn [snd].
    + assert (exists news1,
                 published (trace (gpio s1))
                 = news1 ++ published (trace (gpio s))
                 /\ forallb (fun v => negb (_isSaturated v)) news1 = true
                 /\ _lastVal (this s1) = hd (_lastVal (this s)) news1)
        as (news1 & P1 & F1 & L1).
      { destruct Hbody as [[L Q] | [Hsat Q]].
        - exists []. repeat split; assumption.
        - exists [_lastVal (this s1)]. cbn. rewrite Hsat. repeat split.
          exact Q. }
      destruct continue.
      * cbv beta iota.
        destruct (IH s1) as (news2 & P2 & F2 & L2).
        exists (news2 ++ news1).
        rewrite P2, P1, app_assoc, forallb_app, F1, F2, L2, L1.
        repeat split. destruct news2; reflexivity.
      * exists news1. cbn [ret snd]. repeat split; assumption.
    + destruct Hbody as [[L Q] | [Hsat Q]].
      * exists []. repeat split; assumption.
      * exists [_lastVal (this s1)]. cbn. rewrite Hsat. repeat split.
        exact Q.
Qed.

(** What a pass of the watcher returns, branch by branch; [v] and [s1] are
    the value and the state that [_readInt] yields after the readiness
    check. *)
Lemma watchPin_body_cases (s : state) :
  exists (v : Z) (s1 : state),
    _readInt (snd (isReady s)) = (Ok v, s1)
    /\ this s1 = this s
    /\ published (trace (gpio s1)) = published (trace (gpio s))
    /\ match _watchState (this s) with
       | END => _watchPin_body s = (Ok false, s)
       | PAUSE => _watchPin_body s = (Ok true, snd (emit Yield s))
       | NONE | NORMAL =>
           if dout (gpio s) (reads (gpio s)) =? 0 then
             if _isSaturated v then
               _watchPin_body s
               = (Ok true,
                  {| this := this s;
                     gpio :=
                       {| dout := dout (gpio s1);
                          reads := reads (gpio s1);
                          trace := Sleep (_saturatedSleep (this s))
                                   :: trace (gpio s1) |} |})
             else
               _watchPin_body s
               = (Ok true,
                  {| this := set_lastVal v (this s);
                     gpio :=
                       {| dout := dout (gpio s1);
                          reads := reads (gpio s1);
                          trace := Sleep (_pollSleep (this s))
                                   :: NotifyAll v :: trace (gpio s1) |} |})
           else
             _watchPin_body s
             = (Ok true,
                {| this := this s;
                   gpio :=
                     {| dout := dout (gpio s);
                        reads := S (reads (gpio s));
                        trace := Sleep (_notReadySleep (this s))
                                 :: DataRead (dout (gpio s) (reads (gpio s)))
                                 :: trace (gpio s) |} |})
       end.
Proof.
  destruct (transacts_readInt (snd (isReady s)))
    as (v & s1 & E & T' & _ & _ & Q).
  change (this s1 = this s) in T'.
  change (published (trace (gpio s1)) = published (trace (gpio s))) in Q.
  exists v, s1.
  split; [ exact E | ]. split; [ exact T' | ]. split; [ exact Q | ].
  assert (forall k : bool -> M state bool,
             bind isReady k s
             = k (dout (gpio s) (reads (gpio s)) =? 0) (snd (isReady s)))
    as Hready by reflexivity.
  unfold _watchPin_body. rewrite bind_field_eq.
  destruct (_watchState (this s)); cbn [PinWatchState_eqb];
    try reflexivity;
    rewrite Hready;
    (destruct (dout (gpio s) (reads (gpio s)) =? 0); cbn [negb];
     [ | reflexivity ]);
    rewrite (bind_ok _ _ _ _ _ E);
    (destruct (_isSaturated v); cbn; rewrite T'; reflexivity).
Qed.

(** C8.  A pass of the watcher either leaves the latest value and the
    announcements as they were, or stores and announces a value that is not
    saturated; so over any run of the watcher every value it publishes is
    non-saturated, and the stored value is the newest of them, or the old
    stored value when none was published.  When the value read is
    saturated, the pass stores and announces nothing, sleeps the saturated
    time and tells the loop to go on, so the watcher makes its next pass
    from there: it retries.  The pass ends the loop only in state [END];
    in every other branch it goes on. *)
Theorem C8_watcher_never_publishes_saturated (fuel : nat) (s : state) :
  ((_lastVal (this (snd (_watchPin_body s))) = _lastVal (this s)
    /\ published (trace (gpio (snd (_watchPin_body s))))
       = published (trace (gpio s)))
   \/ (_isSaturated (_lastVal (this (snd (_watchPin_body s)))) = false
       /\ published (trace (gpio (snd (_watchPin_body s))))
          = _lastVal (this (snd (_watchPin_body s)))
            :: published (trace (gpio s))))
  /\ (exists news : list Z,
        published (trace (gpio (snd (_watchPin fuel s))))
        = news ++ published (trace (gpio s))
        /\ forallb (fun v => negb (_isSaturated v)) news = true
        /\ _lastVal (this (snd (_watchPin fuel s)))
           = hd (_lastVal (this s)) news)
  /\ exists (v : Z) (s1 : state),
       _readInt (snd (isReady s)) = (Ok v, s1)
       /\ this s1 = this s
       /\ published (trace (gpio s1)) = published (trace (gpio s))
       /\ match _watchState (this s) with
          | END => _watchPin_body s = (Ok false, s)
          | PAUSE => _watchPin_body s = (Ok true, snd (emit Yield s))
          | NONE | NORMAL =>
              if dout (gpio s) (reads (gpio s)) =? 0 then
                if _isSaturated v then
                  _watchPin_body s
                  = (Ok true,
                     {| this := this s;
                        gpio :=
                          {| dout := dout (gpio s1);
                             reads := reads (gpio s1);
                             trace := Sleep (_saturatedSleep (this s))
                                      :: trace (gpio s1) |} |})
                  /\ _lastVal (this (snd (_watchPin_body s)))
                     = _lastVal (this s)
                  /\ published (trace (gpio (snd (_watchPin_body s))))
                     = published (trace (gpio s))
                  /\ _watchPin (S fuel) s
                     = _watchPin fuel
                         {| this := this s;
                            gpio :=
                              {| dout := dout (gpio s1);
                                 reads := reads (gpio s1);
                                 trace := Sleep (_saturatedSleep (this s))
                                          :: trace (gpio s1) |} |}
                else
                  _watchPin_body s
                  = (Ok true,
                     {| this := set_lastVal v (this s);
                        gpio :=
                          {| dout := dout (gpio s1);
                             reads := reads (gpio s1);
                             trace := Sleep (_pollSleep (this s))
                                      :: NotifyAll v :: trace (gpio s1) |} |})
              else
                _watchPin_body s
                = (Ok true,
                   {| this := this s;
                      gpio :=
                        {| dout := dout (gpio s);
                           reads := S (reads (gpio s));
                           trace := Sleep (_notReadySleep (this s))
                                    :: DataRead (dout (gpio s) (reads (gpio s)))
                                    :: trace (gpio s) |} |})
          end.
Proof.
  split; [ exact (watchPin_body_publishes s) | ].
  split; [ exact (watchPin_publishes fuel s) | ].
  destruct (watchPin_body_cases s) as (v & s1 & E & T' & Q & Hcases).
  exists v, s1.
  split; [ exact E | ]. split; [ exact T' | ]. split; [ exact Q | ].
  destruct (_watchState (this s)); try exact Hcases;
    (destruct (dout (gpio s) (reads (gpio s)) =? 0); [ | exact Hcases ]);
    (destruct (_isSaturated v); [ | exact Hcases ]);
    (split; [ exact Hcases | ]);
    rewrite Hcases; cbn [snd this gpio trace published];
    (split; [ reflexivity | ]); (split; [ exact Q | ]);
    cbn [_watchPin]; rewrite (bind_ok _ _ _ _ _ Hcases); reflexivity.
Qed.

(** ** Before the first publication *)

Lemma keeps_unpublished_powerDown : keeps unpublished_ok powerDown.
Proof. unfold powerDown. repeat keeps_step. Qed.

Lemma keeps_unpublished_powerUp : keeps unpublished_ok powerUp.
Proof. unfold powerUp. repeat keeps_step. Qed.

Lemma keeps_unpublished_begin (handle claimIn claimOut : Z) :
  keeps unpublished_ok (begin handle claimIn claimOut).
Proof.
  unfold begin.
  repeat first [ apply keeps_unpublished_powerDown
               | apply keeps_unpublished_powerUp
               | keeps_step ].
Qed.

Lemma keeps_unpublished_watchPin_body : keeps unpublished_ok _watchPin_body.
Proof.
  intros s H.
  destruct (watchPin_body_publishes s) as [[L Q] | [_ Q]];
    unfold unpublished_ok.
  - rewrite L, Q. exact H.
  - rewrite Q. discriminate.
Qed.

Lemma perform_keeps_unpublished (k : call) (s : state) :
  unpublished_ok s -> unpublished_ok (perform k s).
Proof.
  intros H.
  destruct k; cbn [perform].
  - apply keeps_unpublished_begin. exact H.
  - exact H.
  - exact H.
  - destruct woken; exact H.
  - apply keeps_unpublished_setConfig. exact H.
  - exact H.
  - exact H.
  - apply keeps_unpublished_powerDown. exact H.
  - apply keeps_unpublished_powerUp. exact H.
  - apply keeps_unpublished_watchPin_body. exact H.
Qed.

Lemma after_keeps_unpublished (history : list call) :
  forall s, unpublished_ok s -> unpublished_ok (after history s).
Proof.
  unfold after.
  induction history as [ | k history IH ]; intros s H; cbn [fold_left].
  - exact H.
  - apply IH. exact (perform_keeps_unpublished k s H).
Qed.

(** C9.  The constructor stores [HX_MAX_VALUE] as the latest value, and
    that value satisfies the saturation predicate.  So, after any history
    of calls and watcher passes in which nothing was published yet, a
    [getValue] whose wait ends without a timeout returns that saturated
    value, although a watcher pass only ever publishes non-saturated ones. *)
Theorem C9_getValue_before_first_publication_is_saturated
    (dflt : Defaults) (line : nat -> Z) (dataPin clockPin : Z)
    (history : list call) :
  published
    (trace (gpio (after history (HX711_ctor dflt line dataPin clockPin))))
  = [] ->
  _lastVal (this (HX711_ctor dflt line dataPin clockPin)) = HX_MAX_VALUE
  /\ _isSaturated HX_MAX_VALUE = true
  /\ (exists v,
        fst (getValue no_timeout
               (after history (HX711_ctor dflt line dataPin clockPin)))
        = Ok v
        /\ _isSaturated v = true)
  /\ (forall s,
        published (trace (gpio (snd (_watchPin_body s))))
        = published (trace (gpio s))
        \/ (_isSaturated (_lastVal (this (snd (_watchPin_body s)))) = false
            /\ published (trace (gpio (snd (_watchPin_body s))))
               = _lastVal (this (snd (_watchPin_body s)))
                 :: published (trace (gpio s)))).
Proof.
  intros Hnone.
  split; [ reflexivity | ]. split; [ reflexivity | ]. split.
  - exists HX_MAX_VALUE. split; [ | reflexivity ].
    cbn [getValue field fst]. f_equal.
    apply (after_keeps_unpublished history); [ | exact Hnone ].
    intros _. reflexivity.
  - intros s.
    destruct (watchPin_body_publishes s) as [[_ Q] | HQ].
    + left. exact Q.
    + right. exact HQ.
Qed.

Lemma C9_witness :
  published
    (trace (gpio (after [call_begin 3 0 0; watcher_pass; watcher_pass]
                    (HX711_ctor bench_defaults high_line 5 6))))
  = []
  /\ exists v,
       fst (getValue no_timeout
              (after [call_begin 3 0 0; watcher_pass; watcher_pass]
                 (HX711_ctor bench_defaults high_line 5 6)))
       = Ok v
       /\ _isSaturated v = true.
Proof.
  split; [ vm_compute; reflexivity | ].
  apply (C9_getValue_before_first_publication_is_saturated
           bench_defaults high_line 5 6
           [call_begin 3 0 0; watcher_pass; watcher_pass]).
  vm_compute. reflexivity.
Defined.

(** ** Concrete runs *)

Example readInt_of_low_line :
  fst (_readInt bench_driver) = Ok 0.
Proof. vm_compute. reflexivity. Qed.

Example readInt_of_high_line :
  fst (_readInt (HX711_ctor bench_defaults high_line 5 6)) = Ok (-1).
Proof. vm_compute. reflexivity. Qed.

Example watcher_publishes_a_plain_value :
  published (trace (gpio (after [call_begin 3 0 0; watcher_pass] bench_driver)))
  = [0]
  /\ _lastVal (this (after [call_begin 3 0 0; watcher_pass] bench_driver)) = 0.
Proof. split; vm_compute; reflexivity. Qed.

Example watcher_withholds_a_saturated_value :
  fst (_readInt (after [call_begin 3 0 0; call_isReady]
                   (HX711_ctor bench_defaults saturating_line 5 6)))
  = Ok HX_MAX_VALUE
  /\ published
       (trace (gpio (after [call_begin 3 0 0; watcher_pass]
                       (HX711_ctor bench_defaults saturating_line 5 6))))
     = []
  /\ hd Yield
       (trace (gpio (after [call_begin 3 0 0; watcher_pass]
                       (HX711_ctor bench_defaults saturating_line 5 6))))
     = Sleep 500.
Proof. repeat split; vm_compute; reflexivity. Qed.

Example begin_without_gpio_fails :
  fst (begin (-1) 0 0 bench_driver) = Err RuntimeError
  /\ trace (gpio (snd (begin (-1) 0 0 bench_driver))) = [ChipOpen (-1)].
Proof. split; vm_compute; reflexivity. Qed.

Example setConfig_rejects_channel_B_gain_64 :
  setConfig B GAIN_64 bench_driver = (Err InvalidArgument, bench_driver).
Proof. reflexivity. Qed.

Example setConfig_to_gain_64_takes_27_pulses :
  fst (setConfig A GAIN_64 bench_driver) = Ok tt
  /\ pulses (trace (gpio (snd (setConfig A GAIN_64 bench_driver)))) = 27
  /\ getGain (snd (setConfig A GAIN_64 bench_driver)) = GAIN_64.
Proof. repeat split; vm_compute; reflexivity. Qed.

End DriverProperties.

(** * Properties of the scale abstraction *)

Section ScaleProperties.

Import AbstractScale.

Context {Unit Src : Type} {provider : RawSource Src}.

Lemma read_unfold (NDEBUG : bool) (rt : ReadType) (samples : nat)
    (s : state Unit Src) :
  samples <> 0%nat ->
  read NDEBUG rt samples s
  = match getValues samples (source s) with
    | (Ok vals, src) =>
        match aggregate rt vals with
        | Ok val => normalise NDEBUG val {| this := this s; source := src |}
        | Err e => (Err e, {| this := this s; source := src |})
        end
    | (Err e, src) => (Err e, {| this := this s; source := src |})
    end.
Proof.
  intros Hn. unfold read.
  destruct (Nat.eqb_spec samples 0) as [H0 | _]; [ contradiction | ].
  unfold bind, sample, lift.
  destruct (getValues samples (source s)) as [[vals | e] src];
    [ | reflexivity ].
  destruct (aggregate rt vals); reflexivity.
Qed.

(** When sampling fails inside [zero], the failure leaves [zero] at once:
    the reference unit stays at the 1 set for the measurement. *)
Lemma zero_failed_sampling (NDEBUG : bool) (rt : ReadType) (samples : nat)
    (s : state Unit Src) (e : failure) (src : Src) :
  samples <> 0%nat ->
  getValues samples (source s) = (Err e, src) ->
  zero NDEBUG rt samples s
  = (Err e, {| this := set_refUnit 1 (this s); source := src |}).
Proof.
  intros Hn Hfail. unfold zero.
  destruct (Nat.eqb_spec samples 0) as [H0 | _]; [ contradiction | ].
  unfold bind at 1. unfold field at 1.
  unfold bind at 1. cbn [setReferenceUnit Z.eqb update modify].
  unfold bind at 1.
  rewrite read_unfold by exact Hn.
  cbn [source this]. rewrite Hfail. reflexivity.
Qed.

(** On a normal return of [zero] with a known kind, the new offset is the
    rounded normalised aggregate, taken with the old offset and a reference
    unit of 1, and the reference unit is the one from before the call. *)
Lemma zero_normal_return (NDEBUG : bool) (rt : ReadType) (samples : nat)
    (s : state Unit Src) (vals : list Value) (src : Src) (agg : float)
    (z : Value) :
  samples <> 0%nat ->
  _refUnit (this s) <> 0 ->
  getValues samples (source s) = (Ok vals, src) ->
  aggregate rt vals = Ok agg ->
  static_cast_Value
    (std_round ((agg - of_Z (_offset (this s))) / of_Z 1)%float) = Ok z ->
  zero NDEBUG rt samples s
  = (Ok tt,
     {| this := {| _massUnit := _massUnit (this s);
                   _refUnit := _refUnit (this s);
                   _offset := z |};
        source := src |}).
Proof.
  intros Hn Hunit Hvals Hagg Hcast. unfold zero.
  destruct (Nat.eqb_spec samples 0) as [H0 | _]; [ contradiction | ].
  unfold bind at 1. unfold field at 1.
  unfold bind at 1. cbn [setReferenceUnit Z.eqb update modify].
  unfold bind at 1.
  rewrite read_unfold by exact Hn.
  cbn [source this]. rewrite Hvals, Hagg.
  unfold normalise, bind, field, ret, lift, update, modify.
  cbn [this set_refUnit _refUnit _offset _massUnit Z.eqb andb].
  rewrite andb_false_r.
  change (_offset (this {| this := set_refUnit 1 (this s); source := src |}))
    with (_offset (this s)).
  rewrite Hcast.
  unfold setReferenceUnit.
  destruct (Z.eqb_spec (_refUnit (this s)) 0) as [H0 | _]; [ contradiction | ].
  reflexivity.
Qed.

(** C4, amended.  For a sample count of at least 1, [read] and [zero] with
    an unknown kind first draw the samples from the source; they then fail
    with [InvalidArgument] when the sampling succeeded and with the
    sampling's own failure otherwise.  [read] leaves mass unit, reference
    unit and offset as they were; [zero] leaves mass unit and offset as they
    were. *)
Theorem C4_unknown_kind_rejected_after_sampling (NDEBUG : bool)
    (samples : nat) (s : state Unit Src) :
  samples <> 0%nat ->
  read NDEBUG OtherReadType samples s
  = (match fst (getValues samples (source s)) with
     | Ok _ => Err InvalidArgument
     | Err e => Err e
     end,
     {| this := this s; source := snd (getValues samples (source s)) |})
  /\ fst (zero NDEBUG OtherReadType samples s)
     = match fst (getValues samples (source s)) with
       | Ok _ => Err InvalidArgument
       | Err e => Err e
       end
  /\ source (snd (zero NDEBUG OtherReadType samples s))
     = snd (getValues samples (source s))
  /\ _massUnit (this (snd (zero NDEBUG OtherReadType samples s)))
     = _massUnit (this s)
  /\ _offset (this (snd (zero NDEBUG OtherReadType samples s)))
     = _offset (this s).
Proof.
  intros Hn.
  assert (forall s0 : state Unit Src,
             read NDEBUG OtherReadType samples s0
             = (match fst (getValues samples (source s0)) with
                | Ok _ => Err InvalidArgument
                | Err e => Err e
                end,
                {| this := this s0;
                   source := snd (getValues samples (source s0)) |}))
    as Hread.
  { intros s0. rewrite read_unfold by exact Hn.
    destruct (getValues samples (source s0)) as [[vals | e] src];
      reflexivity. }
  split; [ apply Hread | ].
  assert (zero NDEBUG OtherReadType samples s
          = (match fst (getValues samples (source s)) with
             | Ok _ => Err InvalidArgument
             | Err e => Err e
             end,
             {| this := set_refUnit 1 (this s);
                source := snd (getValues samples (source s)) |}))
    as Hzero.
  { unfold zero.
    destruct (Nat.eqb_spec samples 0) as [H0 | _]; [ contradiction | ].
    unfold bind at 1. unfold field at 1.
    unfold bind at 1. cbn [setReferenceUnit Z.eqb update modify].
    unfold bind at 1.
    rewrite Hread. cbn [source this fst snd].
    destruct (fst (getValues samples (source s))); reflexivity. }
  rewrite Hzero. repeat split.
Qed.

(** A quotient whose divisor is the [double] zero is an infinity or a NaN,
    never a finite number. *)
Lemma quotient_by_zero_not_finite (x : float) :
  match Prim2SF (x / of_Z 0)%float with
  | S754_nan | S754_infinity _ => True
  | S754_zero _ | S754_finite _ _ _ => False
  end.
Proof.
  rewrite div_spec.
  change (Prim2SF (of_Z 0)) with (S754_zero false).
  destruct (Prim2SF x) as [ sx | sx | | sx mx ex ]; cbn; exact I.
Qed.

(** C10.  The constructor stores whatever reference unit it is given, 0
    included, and cannot fail; [setReferenceUnit] is where 0 is refused with
    [InvalidArgument].  On a scale constructed with reference unit 0,
    [normalise] raises no error: with assertions compiled in, its assertion
    fails; with assertions compiled out it returns the quotient by zero,
    which is an infinity or a NaN. *)
Theorem C10_constructor_accepts_zero_reference_unit
    (src : Src) (u : Unit) (refUnit offset : Value) (v : float)
    (s : state Unit Src) :
  getReferenceUnit (AbstractScale_ctor src u refUnit offset) = refUnit
  /\ getReferenceUnit (AbstractScale_ctor src u 0 offset) = 0
  /\ setReferenceUnit 0 s = (Err InvalidArgument, s)
  /\ normalise false v (AbstractScale_ctor src u 0 offset)
     = (Err AssertionFailed, AbstractScale_ctor src u 0 offset)
  /\ normalise true v (AbstractScale_ctor src u 0 offset)
     = (Ok ((v - of_Z offset) / of_Z 0)%float,
        AbstractScale_ctor src u 0 offset)
  /\ match Prim2SF ((v - of_Z offset) / of_Z 0)%float with
     | S754_nan | S754_infinity _ => True
     | S754_zero _ | S754_finite _ _ _ => False
     end.
Proof.
  repeat split. apply quotient_by_zero_not_finite.
Qed.

End ScaleProperties.

Section ScaleRuns.

Import AbstractScale.

(** C1.  At a scale with reference unit 100 whose source times out,
    [zero(Average, 1)] fails with the timeout and leaves the reference unit
    at 1: the restoring call after the read is never reached. *)
Theorem C1_zero_failure_leaves_reference_unit_1 (NDEBUG : bool) :
  getReferenceUnit starved_scale = 100
  /\ fst (zero NDEBUG Average 1 starved_scale) = Err TimeoutException
  /\ getReferenceUnit (snd (zero NDEBUG Average 1 starved_scale)) = 1.
Proof.
  split; [ reflexivity | ].
  rewrite (zero_failed_sampling NDEBUG Average 1 starved_scale
             TimeoutException (source starved_scale))
    by (try discriminate; reflexivity).
  split; reflexivity.
Qed.

Example median_of_odd_count : median [5; 3; 1; 4; 2] = 3%float.
Proof. vm_compute. reflexivity. Qed.

Example median_of_even_count : median [4; 1; 3; 2] = 2.5%float.
Proof. vm_compute. reflexivity. Qed.

Example average_of_four : average [1; 2; 3; 4] = 2.5%float.
Proof. vm_compute. reflexivity. Qed.

Example read_end_to_end :
  fst (read false Average 5
         (AbstractScale_ctor
            {| pending := [1500; 1500; 1500; 1500; 1500]; handed := 0 |}
            gram 100 500))
  = Ok 10%float.
Proof. vm_compute. reflexivity. Qed.

Example read_of_no_samples_is_a_range_error :
  fst (read false Median 0 bench_scale) = Err RangeError.
Proof. reflexivity. Qed.

(** A normal run of [zero]: one sample of 1500 over an old offset of 500
    gives the offset 1000, not 1500, and the reference unit is back. *)
Example zero_subtracts_old_offset :
  zero false Average 1 bench_scale
  = (Ok tt,
     {| this := {| _massUnit := gram; _refUnit := 100; _offset := 1000 |};
        source := {| pending := []; handed := 1 |} |}).
Proof. vm_compute. reflexivity. Qed.

(** C4, as stated, fails: [read] with an unknown kind on a scale whose
    source holds one sample does draw that sample before it is rejected. *)
Lemma C4_counterexample :
  ~ (fst (read false OtherReadType 1 bench_scale) = Err InvalidArgument
     /\ source (snd (read false OtherReadType 1 bench_scale))
        = source bench_scale
     /\ this (snd (read false OtherReadType 1 bench_scale))
        = this bench_scale).
Proof.
  intros (_ & Hsource & _).
  vm_compute in Hsource. discriminate Hsource.
Qed.

Lemma C4_witness :
  1%nat <> 0%nat
  /\ read false OtherReadType 1 bench_scale
     = (Err InvalidArgument,
        {| this := this bench_scale;
           source := {| pending := []; handed := 1 |} |})
  /\ fst (zero false OtherReadType 1 bench_scale) = Err InvalidArgument.
Proof.
  split; [ lia | ].
  destruct (C4_unknown_kind_rejected_after_sampling false 1 bench_scale)
    as (Hread & Hzero & _); [ lia | ].
  split; [ exact Hread | exact Hzero ].
Defined.

(** A scale constructed with reference unit 0, in a build without
    assertions: a reading of 1500 over the offset 500 normalises to
    infinity, a reading equal to the offset to NaN. *)
Example normalise_by_zero_reference_unit :
  fst (normalise true 1500
         (AbstractScale_ctor {| pending := []; handed := 0 |} gram 0 500))
  = Ok infinity
  /\ fst (normalise true 500
            (AbstractScale_ctor {| pending := []; handed := 0 |} gram 0 500))
     = Ok nan.
Proof. split; vm_compute; reflexivity. Qed.

End ScaleRuns.

(** * Further properties of the protocol driver *)

Section BusProperties.

Import HX711.

(** ** Bits and bytes *)

Lemma lor_disjoint_add (hi lo n : Z) :
  0 <= n -> 0 <= lo < 2 ^ n -> Z.lor (hi * 2 ^ n) lo = hi * 2 ^ n + lo.
Proof.
  intros Hn Hlo.
  assert (Z.land (hi * 2 ^ n) lo = 0) as Hdisjoint.
  { apply Z.bits_inj'. intros i Hi.
    rewrite Z.land_spec, Z.bits_0.
    destruct (Z_lt_le_dec i n) as [Hlt | Hge].
    - rewrite Z.mul_pow2_bits_low by lia. reflexivity.
    - rewrite <- (Z.mod_small lo (2 ^ n)) by lia.
      rewrite Z.mod_pow2_bits_high by lia. apply andb_false_r. }
  rewrite Z.add_nocarry_lxor by exact Hdisjoint.
  symmetry. apply Z.lxor_lor. exact Hdisjoint.
Qed.

Lemma big_endian_snoc (bits : list bool) (b : bool) :
  big_endian (bits ++ [b]) = 2 * big_endian bits + Z.b2z b.
Proof. unfold big_endian. rewrite fold_left_app. reflexivity. Qed.

Lemma big_endian_bound (bits : list bool) :
  0 <= big_endian bits < 2 ^ Z.of_nat (length bits).
Proof.
  induction bits as [ | b bits IH ] using rev_ind.
  - cbn. lia.
  - rewrite big_endian_snoc, length_app, Nat.add_comm.
    cbn [length Nat.add]. rewrite Nat2Z.inj_succ, Z.pow_succ_r by lia.
    destruct b; cbn [Z.b2z]; lia.
Qed.

Lemma big_endian_app (hi lo : list bool) :
  big_endian (hi ++ lo)
  = big_endian hi * 2 ^ Z.of_nat (length lo) + big_endian lo.
Proof.
  induction lo as [ | b lo IH ] using rev_ind.
  - rewrite app_nil_r. cbn. lia.
  - rewrite app_assoc, !big_endian_snoc, IH, length_app, Nat.add_comm.
    cbn [length Nat.add]. rewrite Nat2Z.inj_succ, Z.pow_succ_r by lia.
    lia.
Qed.

(** The digits of a number, most significant first, make the number. *)
Lemma big_endian_testbits (n : nat) :
  forall f : Z,
    0 <= f < 2 ^ Z.of_nat n ->
    big_endian (map (fun i => Z.testbit f (Z.of_nat (n - 1 - i))) (seq 0 n))
    = f.
Proof.
  induction n as [ | n IH ]; intros f Hf.
  - cbn in *. lia.
  - rewrite seq_S, map_app. cbn [map Nat.add]. rewrite big_endian_snoc.
    replace (S n - 1 - n)%nat with 0%nat by lia.
    rewrite Nat2Z.inj_succ, Z.pow_succ_r in Hf by lia.
    rewrite (map_ext_in _ (fun i => Z.testbit (f / 2) (Z.of_nat (n - 1 - i)))).
    + rewrite IH by (split; [ apply Z.div_pos; lia
                            | apply Z.div_lt_upper_bound; lia ]).
      cbn [Z.of_nat]. rewrite Z.bit0_mod.
      pose proof (Z.div_mod f 2 ltac:(lia)). lia.
    + intros i Hi. apply in_seq in Hi.
      rewrite Z.div2_bits by lia. f_equal. lia.
Qed.

Lemma shifts_ret {T} (a : T) (s : state) : shifts (ret a) s 0 a.
Proof. exists s. repeat split. cbn. lia. Qed.

Lemma shifts_bind {T U} (m : M state T) (f : T -> M state U) (s : state)
    (n k : nat) (a : T) (b : U) :
  shifts m s n a ->
  (forall s',
      this s' = this s ->
      dout (gpio s') = dout (gpio s) ->
      reads (gpio s') = (reads (gpio s) + n)%nat ->
      shifts (f a) s' k b) ->
  shifts (bind m f) s (n + k) b.
Proof.
  intros (s1 & E1 & T1 & D1 & R1) Hf.
  destruct (Hf s1 T1 D1 R1) as (s2 & E2 & T2 & D2 & R2).
  exists s2. rewrite (bind_ok _ _ _ _ _ E1).
  repeat split; [ exact E2 | congruence | congruence | lia ].
Qed.

Lemma shifts_count {T} (m : M state T) (s : state) (n n' : nat) (a : T) :
  n = n' -> shifts m s n a -> shifts m s n' a.
Proof. intros <- H. exact H. Qed.

Lemma shifts_bind_field {T U} (f : object -> T) (k : T -> M state U)
    (s : state) (n : nat) (b : U) :
  shifts (k (f (this s))) s n b -> shifts (bind (field f) k) s n b.
Proof. intros H. exact H. Qed.

Lemma shifts_readBit (s : state) : shifts _readBit s 1 (bit_at s 0).
Proof.
  unfold shifts, bit_at. rewrite Nat.add_0_r.
  exists (snd (_readBit s)). split; [ reflexivity | ].
  cbn. repeat split. lia.
Qed.

Lemma coming_bits_shift (s s' : state) (k from count : nat) :
  dout (gpio s') = dout (gpio s) ->
  reads (gpio s') = (reads (gpio s) + k)%nat ->
  coming_bits s' from count = coming_bits s (k + from) count.
Proof.
  intros D R. unfold coming_bits.
  revert from. induction count as [ | count IH ]; intros from; cbn [seq map].
  - reflexivity.
  - rewrite IH. f_equal.
    + unfold bit_at. rewrite D, R. f_equal. f_equal. lia.
    + f_equal. f_equal. lia.
Qed.

Lemma readByte_loop (n : nat) :
  forall (val : Z) (s : state),
    shifts
      (for_loop n
         (fun val =>
            fmt <- field _bitFormat ;;
            if Format_eqb fmt MSB then
              let val1 := Z.shiftl val 1 mod 256 in
              bit <- _readBit ;;
              ret (Z.lor val1 (Z.b2z bit))
            else
              let val1 := Z.shiftr val 1 in
              bit <- _readBit ;;
              ret (Z.lor val1 (Z.b2z bit * 0x80) mod 256))%monad
         val)
      s n
      (fold_left (shift_in (_bitFormat (this s))) (coming_bits s 0 n) val).
Proof.
  induction n as [ | n IH ]; intros val s.
  - apply shifts_ret.
  - cbn [for_loop]. change (S n) with (1 + n)%nat at 1.
    change (coming_bits s 0 (S n))
      with (bit_at s 0 :: coming_bits s 1 n).
    cbn [fold_left].
    apply shifts_bind
      with (a := shift_in (_bitFormat (this s)) val (bit_at s 0)).
    + apply shifts_bind_field. unfold shift_in.
      destruct (Format_eqb (_bitFormat (this s)) MSB); cbv zeta;
        change 1%nat with (1 + 0)%nat;
        (apply shifts_bind with (a := bit_at s 0);
         [ apply shifts_readBit | intros; apply shifts_ret ]).
    + intros s' T' D' R'.
      change (coming_bits s 1 n) with (coming_bits s (1 + 0) n).
      rewrite <- (coming_bits_shift s s' 1 0 n D' R'), <- T'.
      apply IH.
Qed.

Lemma byte_of_shift_in (fmt : Format) (b0 b1 b2 b3 b4 b5 b6 b7 : bool) :
  fold_left (shift_in fmt) [b0; b1; b2; b3; b4; b5; b6; b7] 0
  = byte_of fmt [b0; b1; b2; b3; b4; b5; b6; b7].
Proof.
  destruct fmt, b0, b1, b2, b3, b4, b5, b6, b7; vm_compute; reflexivity.
Qed.

Lemma shifts_readByte (s : state) :
  shifts _readByte s 8 (byte_of (_bitFormat (this s)) (coming_bits s 0 8)).
Proof.
  pose proof (readByte_loop 8 0 s) as H.
  change (coming_bits s 0 8)
    with [bit_at s 0; bit_at s 1; bit_at s 2; bit_at s 3;
          bit_at s 4; bit_at s 5; bit_at s 6; bit_at s 7] in *.
  rewrite byte_of_shift_in in H. exact H.
Qed.

Lemma byte_of_bound (fmt : Format) (bits : list bool) :
  length bits = 8%nat -> 0 <= byte_of fmt bits < 256.
Proof.
  intros Hlen.
  unfold byte_of.
  destruct fmt;
    [ pose proof (big_endian_bound bits) as H
    | pose proof (big_endian_bound (rev bits)) as H;
      rewrite length_rev in H ];
    rewrite Hlen in H; exact H.
Qed.

(** X1.  [_readByte] returns the byte the next eight levels of the data line
    make in the stored bit format, first level on top in [MSB] and at the
    bottom in [LSB]; it samples the line eight times, once per pulse, and
    leaves the data members alone. *)
Theorem readByte_assembles_the_next_eight_bits (s : state) :
  exists s' : state,
    _readByte s
    = (Ok (byte_of (getBitFormat s) (coming_bits s 0 8)), s')
    /\ 0 <= byte_of (getBitFormat s) (coming_bits s 0 8) < 256
    /\ this s' = this s
    /\ reads (gpio s') = (reads (gpio s) + 8)%nat
    /\ pulses (trace (gpio s')) = 8 + pulses (trace (gpio s)).
Proof.
  destruct (shifts_readByte s) as (s' & E & T' & D' & R').
  destruct (transacts_readByte s) as (a & s'' & E' & _ & _ & P & _).
  rewrite E in E'. injection E' as _ <-.
  exists s'. split; [ exact E | ].
  split; [ apply byte_of_bound; reflexivity | ].
  repeat split; assumption.
Qed.

(** ** The transaction, bit by bit *)

Lemma shifts_read_raw (s : state) :
  shifts read_raw s 24 [coming_byte s 0; coming_byte s 1; coming_byte s 2].
Proof.
  unfold read_raw.
  change (Z.to_nat _BYTES_PER_CONVERSION_PERIOD) with 3%nat.
  cbn [for_loop].
  change 24%nat with ((8 + 0) + ((8 + 0) + ((8 + 0) + 0)))%nat.
  apply shifts_bind with (a := [] ++ [coming_byte s 0]).
  { apply shifts_bind with (a := coming_byte s 0);
      [ apply shifts_readByte | intros; apply shifts_ret ]. }
  intros s1 T1 D1 R1.
  apply shifts_bind with (a := ([] ++ [coming_byte s 0]) ++ [coming_byte s 1]).
  { apply shifts_bind with (a := coming_byte s 1);
      [ | intros; apply shifts_ret ].
    unfold coming_byte. rewrite <- T1.
    change (8 * 1)%nat with ((8 + 0) + 0)%nat.
    rewrite <- (coming_bits_shift s s1 (8 + 0) 0 8 D1 R1).
    apply shifts_readByte. }
  intros s2 T2 D2 R2.
  apply shifts_bind
    with (a := (([] ++ [coming_byte s 0]) ++ [coming_byte s 1])
               ++ [coming_byte s 2]);
    [ | intros; apply shifts_ret ].
  apply shifts_bind with (a := coming_byte s 2);
    [ | intros; apply shifts_ret ].
  unfold coming_byte. rewrite <- T1, <- T2.
  change (8 * 2)%nat with ((8 + 0) + ((8 + 0) + 0))%nat.
  rewrite <- (coming_bits_shift s s1 (8 + 0) ((8 + 0) + 0) 8 D1 R1).
  rewrite <- (coming_bits_shift s1 s2 (8 + 0) 0 8 D2 R2).
  apply shifts_readByte.
Qed.

Lemma shifts_trailing (k : nat) :
  forall s : state,
    shifts (for_loop k (fun _ => _readBit ;;; ret tt)%monad tt) s k tt.
Proof.
  induction k as [ | k IH ]; intros s.
  - apply shifts_ret.
  - cbn [for_loop]. change (S k) with ((1 + 0) + k)%nat.
    apply shifts_bind with (a := tt).
    + apply shifts_bind with (a := bit_at s 0);
        [ apply shifts_readBit | intros; apply shifts_ret ].
    + intros s' _ _ _. apply IH.
Qed.

Lemma shifts_readRawBytes (bytes : bool) (s : state) :
  shifts (_readRawBytes bytes) s
    (24 + Z.to_nat (pulsesNeeded (_gain (this s))))
    (if bytes then Some (coming_bytes s) else None).
Proof.
  unfold _readRawBytes.
  change (24 + Z.to_nat (pulsesNeeded (_gain (this s))))%nat
    with (0 + (24 + Z.to_nat (pulsesNeeded (_gain (this s)))))%nat.
  apply shifts_bind with (a := tt).
  { exists (snd (_delayMicroseconds 1 s)).
    split; [ reflexivity | ]. cbn. repeat split. lia. }
  intros s1 T1 D1 R1.
  apply shifts_bind
    with (a := [coming_byte s 0; coming_byte s 1; coming_byte s 2]).
  { pose proof (shifts_read_raw s1) as H.
    unfold coming_byte in *. rewrite T1 in H.
    rewrite !(coming_bits_shift s s1 0 _ 8 D1 R1) in H. exact H. }
  intros s2 T2 D2 R2.
  apply shifts_bind_field.
  replace (_gain (this s2)) with (_gain (this s)) by congruence.
  apply (shifts_count _ _ (Z.to_nat (pulsesNeeded (_gain (this s))) + 0));
    [ lia | ].
  apply shifts_bind with (a := tt); [ apply shifts_trailing | ].
  intros s3 T3 D3 R3.
  destruct bytes; cbn [negb]; [ | apply shifts_ret ].
  apply shifts_bind_field.
  unfold coming_bytes.
  replace (_byteFormat (this s3)) with (_byteFormat (this s)) by congruence.
  destruct (_byteFormat (this s)); apply shifts_ret.
Qed.

Lemma bind_same_state {T U V} (m : M state T)
    (f : T -> M state U) (g : T -> M state V) (s : state) :
  (forall a s', snd (f a s') = snd (g a s')) ->
  snd (bind m f s) = snd (bind m g s).
Proof.
  intros H. unfold bind.
  destruct (m s) as [[a | e] s']; [ apply H | reflexivity ].
Qed.

(** X2.  A raw transaction hands out the three coming bytes of the data line,
    first and last swapped when the byte format is [LSB], and nothing when
    no buffer is passed.  Either way it samples the line once per pulse, 24
    times for the bytes and once per trailing pulse, leaves the data members
    alone, and ends in the same state with or without a buffer. *)
Theorem readRawBytes_hands_out_the_coming_bytes (bytes : bool) (s : state) :
  (exists s' : state,
     _readRawBytes bytes s
     = (Ok (if bytes then Some (coming_bytes s) else None), s')
     /\ this s' = this s
     /\ Z.of_nat (reads (gpio s')) - Z.of_nat (reads (gpio s))
        = 24 + pulsesNeeded (_gain (this s))
     /\ pulses (trace (gpio s')) - pulses (trace (gpio s))
        = 24 + pulsesNeeded (_gain (this s)))
  /\ snd (_readRawBytes false s) = snd (_readRawBytes true s).
Proof.
  split.
  - destruct (shifts_readRawBytes bytes s) as (s' & E & T' & _ & R').
    destruct (transacts_readRawBytes bytes s) as (a & s'' & E' & _ & _ & P & _).
    rewrite E in E'. injection E' as _ <-.
    exists s'. split; [ exact E | ]. split; [ exact T' | ].
    pose proof (pulsesNeeded_nonneg (_gain (this s))).
    split; lia.
  - unfold _readRawBytes.
    repeat (apply bind_same_state; intros).
    reflexivity.
Qed.

(** ** The value read *)

Lemma assemble_three_bytes (b0 b1 b2 : Z) :
  0 <= b0 < 256 -> 0 <= b1 < 256 -> 0 <= b2 < 256 ->
  Z.lor (Z.lor (Z.lor (Z.shiftl 0 24) (Z.shiftl b0 16)) (Z.shiftl b1 8)) b2
  = b0 * 65536 + b1 * 256 + b2.
Proof.
  intros H0 H1 H2.
  rewrite Z.shiftl_0_l, Z.lor_0_l, !Z.shiftl_mul_pow2 by lia.
  rewrite (lor_disjoint_add b0 (b1 * 2 ^ 8) 16) by lia.
  replace (b0 * 2 ^ 16 + b1 * 2 ^ 8) with ((b0 * 2 ^ 8 + b1) * 2 ^ 8) by lia.
  rewrite lor_disjoint_add by lia. lia.
Qed.

Lemma coming_byte_bound (s : state) (k : nat) : 0 <= coming_byte s k < 256.
Proof.
  apply byte_of_bound. unfold coming_bits.
  rewrite length_map, length_seq. reflexivity.
Qed.

(** X3.  [_readInt] returns the sign-extended 24-bit number made of the three
    coming bytes, the first one on top, or the last one on top when the
    byte format is [LSB]. *)
Theorem readInt_decodes_the_coming_bytes (s : state) :
  exists s' : state,
    _readInt s
    = (Ok (_convertFromTwosComplement
             (match getByteFormat s with
              | MSB => coming_byte s 0 * 65536 + coming_byte s 1 * 256
                       + coming_byte s 2
              | LSB => coming_byte s 2 * 65536 + coming_byte s 1 * 256
                       + coming_byte s 0
              end)), s')
    /\ this s' = this s.
Proof.
  destruct (shifts_readRawBytes true s) as (s' & E & T' & _ & _).
  exists s'. split; [ | exact T' ].
  unfold _readInt. rewrite (bind_ok _ _ _ _ _ E).
  unfold ret, coming_bytes, getByteFormat.
  pose proof (coming_byte_bound s 0).
  pose proof (coming_byte_bound s 1).
  pose proof (coming_byte_bound s 2).
  destruct (_byteFormat (this s)); cbn [nth];
    rewrite assemble_three_bytes by assumption; reflexivity.
Qed.

(** X4.  The round trip over the bus: with both formats [MSB], when the chip
    shifts out the 24-bit field of a number [n] of [-2^23, 2^23-1], most
    significant bit first, [_readInt] returns [n]. *)
Theorem readInt_returns_the_number_shifted_out (s : state) (n : Z) :
  _bitFormat (this s) = MSB ->
  _byteFormat (this s) = MSB ->
  - 2 ^ 23 <= n <= 2 ^ 23 - 1 ->
  coming_bits s 0 24 = shifted_out n ->
  fst (_readInt s) = Ok n.
Proof.
  intros Hbit Hbyte Hn Hline.
  destruct (readInt_decodes_the_coming_bytes s) as (s' & E & _).
  rewrite E. cbn [fst]. f_equal.
  unfold getByteFormat, coming_byte. rewrite Hbyte, Hbit. cbn [byte_of].
  assert (big_endian (coming_bits s (8 * 0) 8) * 65536
          + big_endian (coming_bits s (8 * 1) 8) * 256
          + big_endian (coming_bits s (8 * 2) 8)
          = big_endian (coming_bits s 0 24)) as ->.
  { change (coming_bits s 0 24)
      with (coming_bits s (8 * 0) 8
            ++ coming_bits s (8 * 1) 8 ++ coming_bits s (8 * 2) 8).
    rewrite !big_endian_app.
    unfold coming_bits. rewrite !length_app, !length_map, !length_seq.
    change (2 ^ Z.of_nat (8 + 8)) with 65536.
    change (2 ^ Z.of_nat 8) with 256. lia. }
  rewrite Hline. unfold shifted_out.
  change (fun i : nat => Z.testbit (twosComplement24 n) (Z.of_nat (23 - i)))
    with (fun i : nat =>
            Z.testbit (twosComplement24 n) (Z.of_nat (24 - 1 - i))).
  rewrite big_endian_testbits
    by (unfold twosComplement24; apply Z.mod_pos_bound; lia).
  apply decode_encode. exact Hn.
Qed.

Lemma readInt_returns_the_number_shifted_out_witness :
  _bitFormat (this (HX711_ctor bench_defaults high_line 5 6)) = MSB
  /\ _byteFormat (this (HX711_ctor bench_defaults high_line 5 6)) = MSB
  /\ - 2 ^ 23 <= -1 <= 2 ^ 23 - 1
  /\ coming_bits (HX711_ctor bench_defaults high_line 5 6) 0 24
     = shifted_out (-1)
  /\ fst (_readInt (HX711_ctor bench_defaults high_line 5 6)) = Ok (-1).
Proof.
  split; [ reflexivity | ]. split; [ reflexivity | ].
  split; [ lia | ]. split; [ vm_compute; reflexivity | ].
  apply (readInt_returns_the_number_shifted_out
           (HX711_ctor bench_defaults high_line 5 6) (-1));
    [ reflexivity | reflexivity | lia | vm_compute; reflexivity ].
Defined.

End BusProperties.

Section OperationProperties.

Import HX711.

(** ** Configuration and power *)

(** X5.  A successful [setConfig] makes exactly one transaction, and clocks it
    with the pulse count of the new gain, not of the old one: 24 pulses
    and the trailing pulses of [g], each sampling the data line once.  All
    other data members stay as they were. *)
Theorem setConfig_clocks_the_new_gain (c : Channel) (g : Gain) (s : state) :
  valid_config c g = true ->
  exists s' : state,
    setConfig c g s = (Ok tt, s')
    /\ this s' = set_gain g (set_channel c (this s))
    /\ pulses (trace (gpio s')) - pulses (trace (gpio s))
       = 24 + pulsesNeeded g
    /\ Z.of_nat (reads (gpio s')) - Z.of_nat (reads (gpio s))
       = 24 + pulsesNeeded g
    /\ published (trace (gpio s')) = published (trace (gpio s)).
Proof.
  intros Hvalid. unfold setConfig.
  rewrite setConfig_with_valid by exact Hvalid.
  destruct (readRawBytes_hands_out_the_coming_bytes false (staged c g s))
    as ((s' & E & T' & R' & P') & _).
  destruct (transacts_readRawBytes false (staged c g s))
    as (a & s'' & E' & _ & _ & _ & Q).
  rewrite E in E'. injection E' as _ <-.
  rewrite (bind_ok _ _ _ _ _ E). cbn [ret].
  exists s'. repeat split; assumption.
Qed.

Lemma setConfig_clocks_the_new_gain_witness :
  valid_config A GAIN_64 = true
  /\ exists s' : state,
       setConfig A GAIN_64 bench_driver = (Ok tt, s')
       /\ this s' = set_gain GAIN_64 (set_channel A (this bench_driver))
       /\ pulses (trace (gpio s')) - pulses (trace (gpio bench_driver))
          = 24 + pulsesNeeded GAIN_64
       /\ Z.of_nat (reads (gpio s')) - Z.of_nat (reads (gpio bench_driver))
          = 24 + pulsesNeeded GAIN_64
       /\ published (trace (gpio s')) = published (trace (gpio bench_driver)).
Proof.
  split; [ reflexivity | ].
  apply (setConfig_clocks_the_new_gain A GAIN_64 bench_driver).
  reflexivity.
Defined.

Lemma set_config_same (o : object) :
  set_gain (_gain o) (set_channel (_channel o) o) = o.
Proof. destruct o. reflexivity. Qed.

(** X6.  [powerUp] resumes the watcher and drives the clock low.  A chip that
    was reset is back at gain 128, so with gain 128 stored nothing more
    happens; with another gain stored the stored pairing is sent again by
    one transaction.  The data members other than the watch state are as
    before. *)
Theorem powerUp_sends_the_stored_config_again (s : state) :
  config_ok s ->
  exists s' : state,
    powerUp s = (Ok tt, s')
    /\ this s' = set_watchState NORMAL (this s)
    /\ pulses (trace (gpio s')) - pulses (trace (gpio s))
       = (if Gain_eqb (_gain (this s)) GAIN_128 then 0
          else 24 + pulsesNeeded (_gain (this s)))
    /\ published (trace (gpio s')) = published (trace (gpio s)).
Proof.
  intros Hok. unfold powerUp.
  erewrite (bind_ok (update (set_watchState NORMAL))) by reflexivity.
  erewrite (bind_ok (lgGpioWrite false)) by reflexivity.
  rewrite bind_field_eq. cbn [this set_watchState _gain].
  destruct (Gain_eqb (_gain (this s)) GAIN_128) eqn:Hgain; cbn [negb].
  - eexists. split; [ reflexivity | ]. cbn. repeat split. lia.
  - rewrite bind_field_eq. cbn [this set_watchState _channel].
    match goal with
    | |- context [ setConfig ?c ?g ?s1 ] =>
        destruct (setConfig_clocks_the_new_gain c g s1 Hok)
          as (s' & E & T' & P' & _ & Q')
    end.
    exists s'. split; [ exact E | ].
    cbn [this gpio trace pulses published set_watchState] in T', P', Q'.
    split; [ | split; [ exact P' | exact Q' ] ].
    rewrite T'.
    change (_gain (this s))
      with (_gain (set_watchState NORMAL (this s))).
    change (_channel (this s))
      with (_channel (set_watchState NORMAL (this s))).
    apply set_config_same.
Qed.

Lemma powerUp_sends_the_stored_config_again_witness :
  config_ok (snd (setConfig B GAIN_32 bench_driver))
  /\ exists s' : state,
       powerUp (snd (setConfig B GAIN_32 bench_driver)) = (Ok tt, s')
       /\ this s'
          = set_watchState NORMAL
              (this (snd (setConfig B GAIN_32 bench_driver)))
       /\ pulses (trace (gpio s'))
          - pulses (trace (gpio (snd (setConfig B GAIN_32 bench_driver))))
          = (if Gain_eqb
                  (_gain (this (snd (setConfig B GAIN_32 bench_driver))))
                  GAIN_128
             then 0
             else 24
                  + pulsesNeeded
                      (_gain
                         (this (snd (setConfig B GAIN_32 bench_driver)))))
       /\ published (trace (gpio s'))
          = published
              (trace (gpio (snd (setConfig B GAIN_32 bench_driver)))).
Proof.
  split; [ vm_compute; reflexivity | ].
  apply (powerUp_sends_the_stored_config_again
           (snd (setConfig B GAIN_32 bench_driver))).
  vm_compute. reflexivity.
Defined.

(** ** The watcher, case by case *)

Lemma watchPin_idle (fuel : nat) :
  forall s : state,
    _watchState (this s) = PAUSE ->
    this (snd (_watchPin fuel s)) = this s
    /\ dout (gpio (snd (_watchPin fuel s))) = dout (gpio s)
    /\ reads (gpio (snd (_watchPin fuel s))) = reads (gpio s)
    /\ trace (gpio (snd (_watchPin fuel s)))
       = repeat Yield fuel ++ trace (gpio s).
Proof.
  induction fuel as [ | fuel IH ]; intros s Hpause.
  - repeat split.
  - cbn [_watchPin].
    assert (_watchPin_body s = (Ok true, snd (emit Yield s))) as E.
    { unfold _watchPin_body. rewrite bind_field_eq, Hpause. reflexivity. }
    rewrite (bind_ok _ _ _ _ _ E). cbv iota.
    destruct (IH (snd (emit Yield s)) Hpause) as (T' & D' & R' & Tr').
    rewrite T', D', R', Tr'. cbn [snd emit modify this gpio dout reads trace].
    repeat split.
    change (Yield :: trace (gpio s)) with ([Yield] ++ trace (gpio s)).
    rewrite app_assoc. f_equal.
    change (S fuel) with (1 + fuel)%nat.
    rewrite Nat.add_comm, repeat_app. reflexivity.
Qed.

(** X7.  After [powerDown], however many passes the watcher makes, it only
    yields: the data line is not sampled, the clock line stays high, so the
    chip stays powered down, and no data member changes. *)
Theorem watcher_idles_after_powerDown (fuel : nat) (s : state) :
  this (snd (_watchPin fuel (snd (powerDown s))))
  = set_watchState PAUSE (this s)
  /\ reads (gpio (snd (_watchPin fuel (snd (powerDown s)))))
     = reads (gpio s)
  /\ clock_level (trace (gpio (snd (_watchPin fuel (snd (powerDown s))))))
     = Some true
  /\ trace (gpio (snd (_watchPin fuel (snd (powerDown s)))))
     = repeat Yield fuel ++ trace (gpio (snd (powerDown s))).
Proof.
  destruct (watchPin_idle fuel (snd (powerDown s)) eq_refl)
    as (T' & _ & R' & Tr').
  rewrite T', R', Tr'. clear T' R' Tr'.
  repeat split.
  induction fuel as [ | fuel IH ]; [ reflexivity | exact IH ].
Qed.

(** X8.  Once the watch state is [END] the watcher loop stops at its first
    check, whatever is left of its run, and changes nothing. *)
Theorem watcher_stops_at_END (fuel : nat) (s : state) :
  _watchState (this s) = END ->
  _watchPin_body s = (Ok false, s) /\ snd (_watchPin fuel s) = s.
Proof.
  intros Hend.
  assert (_watchPin_body s = (Ok false, s)) as E.
  { unfold _watchPin_body. rewrite bind_field_eq, Hend. reflexivity. }
  split; [ exact E | ].
  destruct fuel as [ | fuel ]; [ reflexivity | ].
  cbn [_watchPin]. rewrite (bind_ok _ _ _ _ _ E). reflexivity.
Qed.

Lemma watcher_stops_at_END_witness :
  _watchState
    (this {| this := set_watchState END (this bench_driver);
             gpio := gpio bench_driver |}) = END
  /\ _watchPin_body {| this := set_watchState END (this bench_driver);
                       gpio := gpio bench_driver |}
     = (Ok false, {| this := set_watchState END (this bench_driver);
                     gpio := gpio bench_driver |})
  /\ snd (_watchPin 7 {| this := set_watchState END (this bench_driver);
                         gpio := gpio bench_driver |})
     = {| this := set_watchState END (this bench_driver);
          gpio := gpio bench_driver |}.
Proof.
  split; [ reflexivity | ].
  apply (watcher_stops_at_END 7
           {| this := set_watchState END (this bench_driver);
              gpio := gpio bench_driver |}).
  reflexivity.
Defined.

(** X9.  A pass of a watcher that is neither paused nor ended, on a data line
    that is not low: the line is sampled once for the readiness check and
    that is all.  No pulse goes out, nothing is published, no data member
    changes, and the watcher sleeps its not-ready time. *)
Theorem watcher_waits_for_a_ready_chip (s : state) :
  _watchState (this s) = NONE \/ _watchState (this s) = NORMAL ->
  dout (gpio s) (reads (gpio s)) <> 0 ->
  _watchPin_body s
  = (Ok true,
     {| this := this s;
        gpio := {| dout := dout (gpio s);
                   reads := S (reads (gpio s));
                   trace := Sleep (_notReadySleep (this s))
                            :: DataRead (dout (gpio s) (reads (gpio s)))
                            :: trace (gpio s) |} |}).
Proof.
  intros Hstate Hhigh.
  unfold _watchPin_body. rewrite bind_field_eq.
  assert (PinWatchState_eqb (_watchState (this s)) END = false
          /\ PinWatchState_eqb (_watchState (this s)) PAUSE = false)
    as (-> & ->) by (destruct Hstate as [-> | ->]; split; reflexivity).
  erewrite (bind_ok isReady) by reflexivity.
  apply Z.eqb_neq in Hhigh. rewrite Hhigh. reflexivity.
Qed.

Lemma watcher_waits_for_a_ready_chip_witness :
  (_watchState (this (HX711_ctor bench_defaults high_line 5 6)) = NONE
   \/ _watchState (this (HX711_ctor bench_defaults high_line 5 6)) = NORMAL)
  /\ dout (gpio (HX711_ctor bench_defaults high_line 5 6))
          (reads (gpio (HX711_ctor bench_defaults high_line 5 6))) <> 0
  /\ fst (_watchPin_body (HX711_ctor bench_defaults high_line 5 6)) = Ok true.
Proof.
  split; [ left; reflexivity | ].
  split; [ vm_compute; discriminate | ].
  rewrite (watcher_waits_for_a_ready_chip
             (HX711_ctor bench_defaults high_line 5 6));
    [ reflexivity | left; reflexivity | vm_compute; discriminate ].
Defined.

(** X10.  A pass of a running watcher on a ready chip, end to end: with both
    formats [MSB], when the data line is low and then shifts out the field
    of a number [n] of [-2^23, 2^23-1], the watcher stores and announces
    [n], unless [n] is one of the two saturation values, in which case the
    stored value and the announcements stay as they were. *)
Theorem watcher_publishes_the_number_shifted_out (s : state) (n : Z) :
  _watchState (this s) = NONE \/ _watchState (this s) = NORMAL ->
  _bitFormat (this s) = MSB ->
  _byteFormat (this s) = MSB ->
  dout (gpio s) (reads (gpio s)) = 0 ->
  coming_bits s 1 24 = shifted_out n ->
  - 2 ^ 23 <= n <= 2 ^ 23 - 1 ->
  if _isSaturated n
  then _lastVal (this (snd (_watchPin_body s))) = _lastVal (this s)
       /\ published (trace (gpio (snd (_watchPin_body s))))
          = published (trace (gpio s))
  else _lastVal (this (snd (_watchPin_body s))) = n
       /\ published (trace (gpio (snd (_watchPin_body s))))
          = n :: published (trace (gpio s)).
Proof.
  intros Hstate Hbit Hbyte Hready Hline Hn.
  unfold _watchPin_body. rewrite bind_field_eq.
  assert (PinWatchState_eqb (_watchState (this s)) END = false
          /\ PinWatchState_eqb (_watchState (this s)) PAUSE = false)
    as (-> & ->) by (destruct Hstate as [-> | ->]; split; reflexivity).
  erewrite (bind_ok isReady) by reflexivity.
  rewrite Hready. cbn [Z.eqb negb].
  match goal with
  | |- context [ bind _readInt ?k ?s0 ] =>
      pose proof (readInt_returns_the_number_shifted_out s0 n) as Hvalue;
      destruct (transacts_readInt s0) as (v & s1 & E & T' & _ & _ & Q);
      rewrite (bind_ok _readInt k s0 s1 v E)
  end.
  rewrite E in Hvalue. cbn [fst this gpio trace published] in Hvalue, T', Q.
  assert (v = n) as ->.
  { assert (Ok v = Ok n) as Hv; [ | injection Hv as Hv; exact Hv ].
    apply Hvalue; try assumption.
    rewrite <- Hline.
    apply (coming_bits_shift s _ 1 0 24); [ reflexivity | cbn; lia ]. }
  destruct (_isSaturated n); cbn; split; congruence.
Qed.

Lemma watcher_publishes_the_number_shifted_out_witness :
  (_watchState (this bench_driver) = NONE
   \/ _watchState (this bench_driver) = NORMAL)
  /\ _bitFormat (this bench_driver) = MSB
  /\ _byteFormat (this bench_driver) = MSB
  /\ dout (gpio bench_driver) (reads (gpio bench_driver)) = 0
  /\ coming_bits bench_driver 1 24 = shifted_out 0
  /\ - 2 ^ 23 <= 0 <= 2 ^ 23 - 1
  /\ _lastVal (this (snd (_watchPin_body bench_driver))) = 0
  /\ published (trace (gpio (snd (_watchPin_body bench_driver))))
     = 0 :: published (trace (gpio bench_driver)).
Proof.
  split; [ left; reflexivity | ].
  split; [ reflexivity | ]. split; [ reflexivity | ].
  split; [ reflexivity | ]. split; [ vm_compute; reflexivity | ].
  split; [ lia | ].
  apply (watcher_publishes_the_number_shifted_out bench_driver 0);
    [ left; reflexivity | reflexivity | reflexivity | reflexivity
    | vm_compute; reflexivity | lia ].
Defined.

(** ** What holds after any history of calls *)

(** The watcher writes no data member other than [_lastVal]. *)
Lemma watchPin_body_writes_only_lastVal (s : state) :
  this (snd (_watchPin_body s))
  = set_lastVal (_lastVal (this (snd (_watchPin_body s)))) (this s).
Proof.
  assert (forall o : object, o = set_lastVal (_lastVal o) o) as Heta
    by (intros []; reflexivity).
  unfold _watchPin_body. rewrite bind_field_eq.
  destruct (PinWatchState_eqb (_watchState (this s)) END);
    [ apply Heta | ].
  destruct (PinWatchState_eqb (_watchState (this s)) PAUSE);
    [ apply Heta | ].
  erewrite (bind_ok isReady) by reflexivity.
  destruct (dout (gpio s) (reads (gpio s)) =? 0); cbn [negb];
    [ | apply Heta ].
  match goal with
  | |- context [ bind _readInt ?k ?s0 ] =>
      destruct (transacts_readInt s0) as (v & s1 & E & T' & _);
      rewrite (bind_ok _readInt k s0 s1 v E)
  end.
  cbn [this] in T'.
  destruct (_isSaturated v); cbn; rewrite T'; [ apply Heta | reflexivity ].
Qed.

Section Invariant.

Variable P : state -> Prop.

Hypothesis P_setConfig : forall c g, keeps P (setConfig c g).
Hypothesis P_watcher : keeps P _watchPin_body.
Hypothesis P_powerDown : keeps P powerDown.
Hypothesis P_powerUp : keeps P powerUp.
Hypothesis P_quiet :
  forall s s',
    _watchState (this s') = _watchState (this s) ->
    _lastVal (this s') = _lastVal (this s) ->
    _dataPin (this s') = _dataPin (this s) ->
    _clockPin (this s') = _clockPin (this s) ->
    pulses (trace (gpio s')) = pulses (trace (gpio s)) ->
    clock_level (trace (gpio s')) = clock_level (trace (gpio s)) ->
    published (trace (gpio s')) = published (trace (gpio s)) ->
    P s -> P s'.

Lemma invariant_begin (handle claimIn claimOut : Z) :
  keeps P (begin handle claimIn claimOut).
Proof.
  assert (forall e,
             match e with
             | ClockWrite _ | NotifyAll _ => False
             | _ => True
             end ->
             keeps P (emit e)) as Hemit.
  { intros e He s H. apply (P_quiet s); try reflexivity; try exact H;
      destruct e; try contradiction; reflexivity. }
  assert (keeps P (update (set_gpioHandle handle))) as Hhandle.
  { intros s H. apply (P_quiet s); try reflexivity. exact H. }
  unfold begin.
  repeat first [ apply P_powerDown | apply P_powerUp | apply P_setConfig
               | apply Hhandle | apply Hemit; exact I
               | apply keeps_ret | apply keeps_throw | apply keeps_field
               | apply keeps_bind; [ | intros ? ]
               | match goal with
                 | |- keeps _ (if ?b then _ else _) => destruct b
                 end ].
Qed.

Lemma invariant_perform (k : call) (s : state) : P s -> P (perform k s).
Proof.
  intros H.
  destruct k; cbn [perform].
  - apply invariant_begin. exact H.
  - apply (P_quiet s); try reflexivity. exact H.
  - apply (P_quiet s); try reflexivity. exact H.
  - destruct woken; exact H.
  - apply P_setConfig. exact H.
  - apply (P_quiet s); try reflexivity. exact H.
  - apply (P_quiet s); try reflexivity. exact H.
  - apply P_powerDown. exact H.
  - apply P_powerUp. exact H.
  - apply P_watcher. exact H.
Qed.

Lemma invariant_after (history : list call) :
  forall s, P s -> P (after history s).
Proof.
  unfold after.
  induction history as [ | k history IH ]; intros s H; cbn [fold_left].
  - exact H.
  - apply IH. apply invariant_perform. exact H.
Qed.

End Invariant.

Ltac keeps_auto :=
  repeat first
    [ apply keeps_ret
    | apply keeps_throw
    | apply keeps_field
    | match goal with
      | H : forall c g, keeps _ (setConfig c g) |- keeps _ (setConfig _ _) =>
          apply H
      end
    | apply keeps_bind; [ | intros ? ]
    | match goal with
      | |- keeps _ (if ?b then _ else _) => destruct b
      end
    | (let s := fresh "s" in
       let H := fresh "H" in
       intros s H; exact H) ].

(** *** The latest value *)

Lemma latest_ok_setConfig (c : Channel) (g : Gain) :
  keeps latest_ok (setConfig c g).
Proof.
  intros s H.
  destruct (valid_config c g) eqn:Hvalid.
  - destruct (setConfig_valid c g s Hvalid) as (s' & E & T' & Q).
    rewrite E. cbn [snd]. unfold latest_ok. rewrite T', Q. exact H.
  - rewrite setConfig_invalid by exact Hvalid. exact H.
Qed.

Lemma latest_ok_watcher : keeps latest_ok _watchPin_body.
Proof.
  intros s H. unfold latest_ok in *.
  destruct (watchPin_body_publishes s) as [[L Q] | [_ Q]].
  - rewrite L, Q. exact H.
  - rewrite Q. reflexivity.
Qed.

Lemma latest_ok_after (dflt : Defaults) (line : nat -> Z)
    (dataPin clockPin : Z) (history : list call) :
  latest_ok (after history (HX711_ctor dflt line dataPin clockPin)).
Proof.
  apply invariant_after; try reflexivity.
  - apply latest_ok_setConfig.
  - apply latest_ok_watcher.
  - intros s H. exact H.
  - pose proof latest_ok_setConfig. unfold powerUp. keeps_auto.
  - unfold latest_ok. intros s s' _ L _ _ _ _ Q H. rewrite L, Q. exact H.
Qed.

(** X11.  On a constructed driver, after any history of calls and watcher
    passes, a [getValue] whose wait ends without a timeout returns the
    value the watcher published last, or [HX_MAX_VALUE] when it published
    none; one whose wait times out fails with [TimeoutException].  Either
    way [getValue] changes nothing. *)
Theorem getValue_returns_the_latest_published
    (dflt : Defaults) (line : nat -> Z) (dataPin clockPin : Z)
    (history : list call) (woken : cv_status) :
  getValue woken (after history (HX711_ctor dflt line dataPin clockPin))
  = (match woken with
     | no_timeout =>
         Ok (hd HX_MAX_VALUE
               (published
                  (trace
                     (gpio (after history
                              (HX711_ctor dflt line dataPin clockPin))))))
     | timeout => Err TimeoutException
     end,
     after history (HX711_ctor dflt line dataPin clockPin)).
Proof.
  destruct woken; [ | reflexivity ].
  cbn [getValue]. unfold field.
  rewrite (latest_ok_after dflt line dataPin clockPin history).
  reflexivity.
Qed.

(** *** The pins *)

Lemma wired_setConfig (d k : Z) (c : Channel) (g : Gain) :
  keeps (wired d k) (setConfig c g).
Proof.
  intros s H.
  destruct (valid_config c g) eqn:Hvalid.
  - destruct (setConfig_valid c g s Hvalid) as (s' & E & T' & _).
    rewrite E. cbn [snd]. unfold wired. rewrite T'. exact H.
  - rewrite setConfig_invalid by exact Hvalid. exact H.
Qed.

(** X12.  The pins a driver was constructed with are the pins it reports after
    any history of calls and watcher passes, and a watcher pass changes no
    data member but [_lastVal]. *)
Theorem pins_never_change
    (dflt : Defaults) (line : nat -> Z) (dataPin clockPin : Z)
    (history : list call) (s : state) :
  getDataPin (after history (HX711_ctor dflt line dataPin clockPin)) = dataPin
  /\ getClockPin (after history (HX711_ctor dflt line dataPin clockPin))
     = clockPin
  /\ this (snd (_watchPin_body s))
     = set_lastVal (_lastVal (this (snd (_watchPin_body s)))) (this s).
Proof.
  assert (wired dataPin clockPin
            (after history (HX711_ctor dflt line dataPin clockPin)))
    as [Hd Hc].
  { apply invariant_after; try (split; reflexivity).
    - apply wired_setConfig.
    - intros s0 H. unfold wired.
      rewrite watchPin_body_writes_only_lastVal. exact H.
    - intros s0 H. exact H.
    - pose proof (wired_setConfig dataPin clockPin).
      unfold powerUp. keeps_auto.
    - unfold wired. intros s0 s' _ _ D C _ _ _ H. rewrite D, C. exact H. }
  split; [ exact Hd | ]. split; [ exact Hc | ].
  apply watchPin_body_writes_only_lastVal.
Qed.

(** *** The clock line *)

Lemma lowers_keeps {T} (m : M state T) : lowers m -> keeps clock_low m.
Proof. intros H s _. apply H. Qed.

Lemma lowers_bind_first {T U} (m : M state T) (f : T -> M state U) :
  lowers m -> (forall a, keeps clock_low (f a)) -> lowers (bind m f).
Proof.
  intros Hm Hf s. unfold bind.
  specialize (Hm s).
  destruct (m s) as [[a | e] s1]; cbn [snd] in *.
  - apply Hf. exact Hm.
  - exact Hm.
Qed.

Lemma lowers_bind_field {T U} (f : object -> T) (k : T -> M state U) :
  (forall a, lowers (k a)) -> lowers (bind (field f) k).
Proof. intros H s. exact (H (f (this s)) s). Qed.

Lemma lowers_bind_total {T U} (m : M state T) (f : T -> M state U) :
  (forall s, exists a s', m s = (Ok a, s')) ->
  (forall a, lowers (f a)) ->
  lowers (bind m f).
Proof.
  intros Hm Hf s.
  destruct (Hm s) as (a & s' & E).
  rewrite (bind_ok _ _ _ _ _ E). apply Hf.
Qed.

Lemma keeps_for_loop {T} (P : state -> Prop) (body : T -> M state T) :
  (forall a, keeps P (body a)) ->
  forall n acc, keeps P (for_loop n body acc).
Proof.
  intros Hbody n.
  induction n as [ | n IH ]; intros acc; cbn [for_loop].
  - apply keeps_ret.
  - apply keeps_bind; [ apply Hbody | exact IH ].
Qed.

Lemma lowers_for_loop {T} (body : T -> M state T) (n : nat) (acc : T) :
  (forall a, lowers (body a)) -> lowers (for_loop (S n) body acc).
Proof.
  intros Hbody. cbn [for_loop].
  apply lowers_bind_first; [ apply Hbody | ].
  apply keeps_for_loop. intros a. apply lowers_keeps, Hbody.
Qed.

Lemma lowers_readBit : lowers _readBit.
Proof. intros s. reflexivity. Qed.

Lemma lowers_readByte : lowers _readByte.
Proof.
  unfold _readByte. apply lowers_for_loop. intros val.
  apply lowers_bind_field. intros fmt.
  destruct (Format_eqb fmt MSB); cbv zeta;
    (apply lowers_bind_first;
     [ apply lowers_readBit | intros; apply keeps_ret ]).
Qed.

Lemma lowers_read_raw : lowers read_raw.
Proof.
  unfold read_raw.
  change (Z.to_nat _BYTES_PER_CONVERSION_PERIOD) with 3%nat.
  apply lowers_for_loop. intros raw.
  apply lowers_bind_first; [ apply lowers_readByte | intros; apply keeps_ret ].
Qed.

Lemma lowers_readRawBytes (bytes : bool) : lowers (_readRawBytes bytes).
Proof.
  unfold _readRawBytes.
  apply lowers_bind_total.
  { intros s. eexists. eexists. reflexivity. }
  intros _.
  apply lowers_bind_first; [ apply lowers_read_raw | ].
  intros raw.
  apply keeps_bind; [ apply keeps_field | intros g ].
  apply keeps_bind.
  - apply keeps_for_loop. intros [].
    apply keeps_bind; [ apply lowers_keeps, lowers_readBit | ].
    intros; apply keeps_ret.
  - intros _. destruct (negb bytes); [ apply keeps_ret | ].
    apply keeps_bind; [ apply keeps_field | intros; apply keeps_ret ].
Qed.

Lemma setConfig_valid_lowers (c : Channel) (g : Gain) (s : state) :
  valid_config c g = true -> clock_low (snd (setConfig c g s)).
Proof.
  intros Hvalid. unfold setConfig.
  rewrite setConfig_with_valid by exact Hvalid.
  pose proof (lowers_readRawBytes false (staged c g s)) as Hlow.
  destruct (transacts_readRawBytes false (staged c g s))
    as (a & s' & E & _).
  rewrite E in Hlow. rewrite (bind_ok _ _ _ _ _ E). exact Hlow.
Qed.

Lemma clock_low_setConfig (c : Channel) (g : Gain) :
  keeps clock_low (setConfig c g).
Proof.
  intros s H.
  destruct (valid_config c g) eqn:Hvalid.
  - apply setConfig_valid_lowers. exact Hvalid.
  - rewrite setConfig_invalid by exact Hvalid. exact H.
Qed.

Lemma lowers_powerUp : lowers powerUp.
Proof.
  unfold powerUp.
  apply lowers_bind_total.
  { intros s. eexists. eexists. reflexivity. }
  intros _.
  apply lowers_bind_first; [ intros s; reflexivity | intros _ ].
  pose proof clock_low_setConfig. keeps_auto.
Qed.

Lemma clock_safe_setConfig (c : Channel) (g : Gain) :
  keeps clock_safe (setConfig c g).
Proof.
  intros s H.
  destruct (valid_config c g) eqn:Hvalid.
  - left. rewrite (setConfig_valid_lowers c g s Hvalid). discriminate.
  - rewrite setConfig_invalid by exact Hvalid. exact H.
Qed.

Lemma clock_safe_watcher : keeps clock_safe _watchPin_body.
Proof.
  intros s H.
  assert (_watchState (this (snd (_watchPin_body s))) = _watchState (this s))
    as Hstate by (rewrite watchPin_body_writes_only_lastVal; reflexivity).
  assert (clock_level (trace (gpio (snd (_watchPin_body s))))
          = clock_level (trace (gpio s))
          \/ clock_low (snd (_watchPin_body s))) as [Hsame | Hlow].
  { unfold _watchPin_body. rewrite bind_field_eq.
    destruct (PinWatchState_eqb (_watchState (this s)) END);
      [ left; reflexivity | ].
    destruct (PinWatchState_eqb (_watchState (this s)) PAUSE);
      [ left; reflexivity | ].
    erewrite (bind_ok isReady) by reflexivity.
    destruct (dout (gpio s) (reads (gpio s)) =? 0); cbn [negb];
      [ | left; reflexivity ].
    right.
    match goal with
    | |- context [ bind _readInt ?k ?s0 ] =>
        assert (clock_low (snd (_readInt s0))) as Hlow
          by (unfold _readInt;
              apply lowers_bind_first;
              [ apply lowers_readRawBytes | intros; apply keeps_ret ]);
        destruct (transacts_readInt s0) as (v & s1 & E & _);
        rewrite (bind_ok _readInt k s0 s1 v E)
    end.
    rewrite E in Hlow. cbn [snd] in Hlow.
    destruct (_isSaturated v); exact Hlow. }
  - unfold clock_safe. rewrite Hsame, Hstate. exact H.
  - left. rewrite Hlow. discriminate.
Qed.

(** X13.  Every raw transaction and every [powerUp] ends with the clock line
    driven low.  So on a constructed driver, after any history of calls and
    watcher passes, the clock line is left high only while the watcher is
    paused, which is what [powerDown] arranges: the chip is not powered
    down behind the watcher's back. *)
Theorem clock_is_high_only_while_paused
    (dflt : Defaults) (line : nat -> Z) (dataPin clockPin : Z)
    (history : list call) (bytes : bool) (s : state) :
  clock_level (trace (gpio (snd (_readRawBytes bytes s)))) = Some false
  /\ clock_level (trace (gpio (snd (powerUp s)))) = Some false
  /\ (clock_level
        (trace (gpio (after history (HX711_ctor dflt line dataPin clockPin))))
      <> Some true
      \/ _watchState
           (this (after history (HX711_ctor dflt line dataPin clockPin)))
         = PAUSE).
Proof.
  split; [ apply lowers_readRawBytes | ].
  split; [ apply lowers_powerUp | ].
  apply (invariant_after clock_safe).
  - apply clock_safe_setConfig.
  - apply clock_safe_watcher.
  - intros s0 _. right. reflexivity.
  - intros s0 _. left. rewrite (lowers_powerUp s0). discriminate.
  - unfold clock_safe. intros s0 s' W _ _ _ _ C _ H. rewrite C, W. exact H.
  - left. discriminate.
Qed.

(** ** Startup *)

(** X14.  [begin] on a driver whose stored pairing is valid.  When the chip
    handle is not negative and both pin claims return 0, it succeeds: the
    handle is stored, the watcher is set running, the stored pairing is
    sent to the chip and kept, the clock line is low, nothing is published
    and the watcher thread is started last.  Otherwise it fails with
    [RuntimeError] having stored the handle and touched neither line: no
    claim is tried after a failed one, no pulse goes out. *)
Theorem begin_outcome (handle claimIn claimOut : Z) (s : state) :
  config_ok s ->
  if (0 <=? handle) && (claimIn =? 0) && (claimOut =? 0)
  then exists s' : state,
         begin handle claimIn claimOut s = (Ok tt, s')
         /\ this s' = set_watchState NORMAL (set_gpioHandle handle (this s))
         /\ hd Yield (trace (gpio s')) = ThreadStart
         /\ clock_level (trace (gpio s')) = Some false
         /\ published (trace (gpio s')) = published (trace (gpio s))
  else fst (begin handle claimIn claimOut s) = Err RuntimeError
       /\ this (snd (begin handle claimIn claimOut s))
          = set_gpioHandle handle (this s)
       /\ reads (gpio (snd (begin handle claimIn claimOut s)))
          = reads (gpio s)
       /\ clock_level (trace (gpio (snd (begin handle claimIn claimOut s))))
          = clock_level (trace (gpio s))
       /\ trace (gpio (snd (begin handle claimIn claimOut s)))
          = (if 0 <=? handle
             then (if claimIn =? 0 then [ClaimOutput claimOut] else [])
                  ++ [ClaimInput claimIn]
             else [])
            ++ ChipOpen handle :: trace (gpio s).
Proof.
  intros Hok. unfold begin.
  erewrite (bind_ok (update (set_gpioHandle handle))) by reflexivity.
  erewrite (bind_ok (emit (ChipOpen handle))) by reflexivity.
  match goal with
  | |- context [ bind ?claims (fun opened => if negb opened then _ else _)
                   ?s1 ] =>
      assert (claims s1
              = (Ok ((0 <=? handle) && (claimIn =? 0) && (claimOut =? 0)),
                 {| this := this s1;
                    gpio :=
                      {| dout := dout (gpio s1);
                         reads := reads (gpio s1);
                         trace :=
                           (if 0 <=? handle
                            then (if claimIn =? 0
                                  then [ClaimOutput claimOut] else [])
                                 ++ [ClaimInput claimIn]
                            else [])
                           ++ trace (gpio s1) |} |})) as Eclaims
        by (destruct (0 <=? handle), (claimIn =? 0), (claimOut =? 0);
            reflexivity);
      rewrite !(bind_ok _ _ _ _ _ Eclaims)
  end.
  clear Eclaims.
  destruct (0 <=? handle), (claimIn =? 0), (claimOut =? 0);
    cbn [andb negb]; try solve [ repeat split ].
  erewrite (bind_ok powerDown) by reflexivity.
  match goal with
  | |- context [ bind powerUp ?k ?s2 ] =>
      destruct (powerUp_sends_the_stored_config_again s2 Hok)
        as (s3 & E3 & T3 & _ & Q3);
      rewrite (bind_ok powerUp k s2 s3 tt E3)
  end.
  rewrite !bind_field_eq.
  assert (valid_config (_channel (this s3)) (_gain (this s3)) = true)
    as Hvalid by (rewrite T3; exact Hok).
  destruct (setConfig_valid _ _ s3 Hvalid) as (s4 & E4 & T4 & Q4).
  pose proof (setConfig_valid_lowers _ _ s3 Hvalid) as Hlow.
  rewrite E4 in Hlow. cbn [snd] in Hlow.
  rewrite (bind_ok _ _ _ _ _ E4).
  eexists. split; [ reflexivity | ].
  cbn [this gpio trace emit modify snd hd clock_level published].
  rewrite T4, set_config_same, T3, Q4, Q3.
  repeat split. exact Hlow.
Qed.

Lemma begin_outcome_witness :
  config_ok bench_driver
  /\ exists s' : state,
       begin 3 0 0 bench_driver = (Ok tt, s')
       /\ this s' = set_watchState NORMAL (set_gpioHandle 3 (this bench_driver))
       /\ hd Yield (trace (gpio s')) = ThreadStart
       /\ clock_level (trace (gpio s')) = Some false
       /\ published (trace (gpio s')) = published (trace (gpio bench_driver)).
Proof.
  split; [ reflexivity | ].
  apply (begin_outcome 3 0 0 bench_driver). reflexivity.
Defined.

End OperationProperties.

(** * Further properties of the scale abstraction *)

Section ScaleOperations.

Import AbstractScale.

Context {Unit Src : Type} {provider : RawSource Src}.

Lemma normalise_keeps_state (NDEBUG : bool) (v : float) (s : state Unit Src) :
  snd (normalise NDEBUG v s) = s.
Proof.
  unfold normalise, bind, field, throw, ret.
  destruct (negb NDEBUG && (_refUnit (this s) =? 0)); reflexivity.
Qed.

Lemma read_keeps_members (NDEBUG : bool) (rt : ReadType) (samples : nat)
    (s : state Unit Src) :
  this (snd (read NDEBUG rt samples s)) = this s.
Proof.
  destruct (Nat.eq_dec samples 0) as [-> | Hn]; [ reflexivity | ].
  rewrite read_unfold by exact Hn.
  destruct (getValues samples (source s)) as [[vals | e] src];
    [ | reflexivity ].
  destruct (aggregate rt vals); [ | reflexivity ].
  rewrite normalise_keeps_state. reflexivity.
Qed.

(** X15.  [read] and [weight] leave mass unit, reference unit and offset as they
    were, whatever they return; they ask the source for samples at most
    once, and not at all for a sample count of 0, which is refused with
    [RangeError] before anything else.  [weight] is [read] with the stored
    unit attached. *)
Theorem read_and_weight_keep_the_calibration (NDEBUG : bool) (rt : ReadType)
    (samples : nat) (s : state Unit Src) :
  this (snd (read NDEBUG rt samples s)) = this s
  /\ source (snd (read NDEBUG rt samples s))
     = (if Nat.eqb samples 0 then source s
        else snd (getValues samples (source s)))
  /\ read NDEBUG rt 0 s = (Err RangeError, s)
  /\ weight NDEBUG rt samples s
     = (match fst (read NDEBUG rt samples s) with
        | Ok x => Ok (x, getUnit s)
        | Err e => Err e
        end,
        snd (read NDEBUG rt samples s)).
Proof.
  split; [ apply read_keeps_members | ].
  split; [ | split; [ reflexivity | ] ].
  - destruct (Nat.eqb_spec samples 0) as [-> | Hn]; [ reflexivity | ].
    rewrite read_unfold by exact Hn.
    destruct (getValues samples (source s)) as [[vals | e] src];
      [ | reflexivity ].
    destruct (aggregate rt vals); [ | reflexivity ].
    rewrite normalise_keeps_state. reflexivity.
  - pose proof (read_keeps_members NDEBUG rt samples s) as Hthis.
    unfold weight, bind, getUnit.
    destruct (read NDEBUG rt samples s) as [[x | e] s1]; [ | reflexivity ].
    cbn [snd fst] in *. unfold field, ret. rewrite Hthis. reflexivity.
Qed.

(** With a reference unit other than 0 the assertion of [normalise] never
    fails, so a build with assertions and one without behave alike. *)
Lemma normalise_builds_agree (v : float) (s : state Unit Src) :
  _refUnit (this s) <> 0 ->
  normalise false v s = normalise true v s.
Proof.
  intros Hunit. unfold normalise, bind, field.
  apply Z.eqb_neq in Hunit. rewrite Hunit. reflexivity.
Qed.

Lemma read_builds_agree (rt : ReadType) (samples : nat) (s : state Unit Src) :
  _refUnit (this s) <> 0 ->
  read false rt samples s = read true rt samples s.
Proof.
  intros Hunit.
  destruct (Nat.eq_dec samples 0) as [-> | Hn]; [ reflexivity | ].
  rewrite !read_unfold by exact Hn.
  destruct (getValues samples (source s)) as [[vals | e] src];
    [ | reflexivity ].
  destruct (aggregate rt vals); [ | reflexivity ].
  apply normalise_builds_agree. exact Hunit.
Qed.

Lemma zero_unfold (NDEBUG : bool) (rt : ReadType) (samples : nat)
    (s : state Unit Src) :
  samples <> 0%nat ->
  zero NDEBUG rt samples s
  = match read NDEBUG rt samples
            {| this := set_refUnit 1 (this s); source := source s |} with
    | (Ok x, s1) =>
        match static_cast_Value (std_round x) with
        | Ok z =>
            setReferenceUnit (_refUnit (this s))
              {| this := set_offset z (this s1); source := source s1 |}
        | Err e => (Err e, s1)
        end
    | (Err e, s1) => (Err e, s1)
    end.
Proof.
  intros Hn. unfold zero.
  destruct (Nat.eqb_spec samples 0) as [H0 | _]; [ contradiction | ].
  unfold bind at 1. unfold field at 1.
  unfold bind at 1. cbn [setReferenceUnit Z.eqb update modify].
  unfold bind at 1.
  destruct (read NDEBUG rt samples _) as [[x | e] s1]; [ | reflexivity ].
  unfold bind at 1, lift.
  destruct (static_cast_Value (std_round x)); reflexivity.
Qed.

(** X16.  [zero] measures with the reference unit at 1, where the assertion of
    [normalise] cannot fail: it behaves the same in a build with assertions
    and in one without, on every scale. *)
Theorem zero_ignores_the_assertion (rt : ReadType) (samples : nat)
    (s : state Unit Src) :
  zero false rt samples s = zero true rt samples s.
Proof.
  destruct (Nat.eq_dec samples 0) as [-> | Hn]; [ reflexivity | ].
  rewrite !zero_unfold by exact Hn.
  rewrite read_builds_agree by (cbn; discriminate).
  reflexivity.
Qed.

Lemma zero_members (NDEBUG : bool) (rt : ReadType) (samples : nat)
    (s : state Unit Src) :
  _massUnit (this (snd (zero NDEBUG rt samples s))) = _massUnit (this s)
  /\ match fst (zero NDEBUG rt samples s) with
     | Ok _ =>
         _refUnit (this (snd (zero NDEBUG rt samples s))) = _refUnit (this s)
         /\ _refUnit (this s) <> 0
         /\ samples <> 0%nat
     | Err _ =>
         _refUnit (this (snd (zero NDEBUG rt samples s))) = _refUnit (this s)
         \/ _refUnit (this (snd (zero NDEBUG rt samples s))) = 1
     end.
Proof.
  destruct (Nat.eq_dec samples 0) as [-> | Hn].
  - split; [ reflexivity | left; reflexivity ].
  - rewrite zero_unfold by exact Hn.
    pose proof (read_keeps_members NDEBUG rt samples
                  {| this := set_refUnit 1 (this s); source := source s |})
      as Hthis.
    destruct (read NDEBUG rt samples _) as [[x | e] s1];
      cbn [snd this] in Hthis.
    + destruct (static_cast_Value (std_round x)) as [z | e].
      * unfold setReferenceUnit.
        destruct (Z.eqb_spec (_refUnit (this s)) 0) as [H0 | H0];
          cbn; rewrite Hthis; cbn; auto.
      * cbn. rewrite Hthis. cbn. auto.
    + cbn. rewrite Hthis. cbn. auto.
Qed.

(** X17.  Whenever [zero] returns normally, the reference unit is the one from
    before the call and is not 0, the mass unit is untouched and the sample
    count was not 0: a scale whose reference unit is 0 cannot be zeroed. *)
Theorem zero_returns_normally_with_the_reference_unit_restored
    (NDEBUG : bool) (rt : ReadType) (samples : nat) (s : state Unit Src) :
  fst (zero NDEBUG rt samples s) = Ok tt ->
  getReferenceUnit (snd (zero NDEBUG rt samples s)) = getReferenceUnit s
  /\ getReferenceUnit s <> 0
  /\ getUnit (snd (zero NDEBUG rt samples s)) = getUnit s
  /\ samples <> 0%nat.
Proof.
  intros Hok.
  destruct (zero_members NDEBUG rt samples s) as (Hmass & Hunit).
  rewrite Hok in Hunit. destruct Hunit as (Hsame & Hnonzero & Hn).
  unfold getReferenceUnit, getUnit. auto.
Qed.

Lemma perform_keeps_reference_unit (NDEBUG : bool) (k : call)
    (s : state Unit Src) :
  _refUnit (this s) <> 0 -> _refUnit (this (perform NDEBUG k s)) <> 0.
Proof.
  intros Hunit.
  destruct k; cbn [perform].
  - exact Hunit.
  - unfold setReferenceUnit.
    destruct (Z.eqb_spec refUnit 0); [ exact Hunit | assumption ].
  - exact Hunit.
  - rewrite normalise_keeps_state. exact Hunit.
  - rewrite read_keeps_members. exact Hunit.
  - destruct (zero_members NDEBUG rt samples s) as (_ & Hzero).
    destruct (fst (zero NDEBUG rt samples s));
      [ destruct Hzero as (-> & _); exact Hunit | ].
    destruct Hzero as [-> | ->]; [ exact Hunit | discriminate ].
  - destruct (read_and_weight_keep_the_calibration NDEBUG rt samples s)
      as (Hthis & _ & _ & Hweight).
    rewrite Hweight. cbn [snd]. rewrite Hthis. exact Hunit.
Qed.

Lemma perform_builds_agree (k : call) (s : state Unit Src) :
  _refUnit (this s) <> 0 -> perform false k s = perform true k s.
Proof.
  intros Hunit.
  destruct k; cbn [perform]; try reflexivity.
  - rewrite !normalise_keeps_state. reflexivity.
  - rewrite read_builds_agree by exact Hunit. reflexivity.
  - rewrite zero_ignores_the_assertion. reflexivity.
  - unfold weight, bind.
    rewrite read_builds_agree by exact Hunit. reflexivity.
Qed.

(** X18.  A reference unit other than 0 stays other than 0 through any history
    of calls on the scale, failing ones included, so the assertion of
    [normalise] never fails on such a scale and a build with assertions
    goes through the same states as one without. *)
Theorem reference_unit_stays_nonzero (NDEBUG : bool)
    (history : list call) (s : state Unit Src) :
  getReferenceUnit s <> 0 ->
  getReferenceUnit (after NDEBUG history s) <> 0
  /\ after false history s = after true history s
  /\ forall v, fst (normalise NDEBUG v (after NDEBUG history s))
               <> Err AssertionFailed.
Proof.
  unfold getReferenceUnit, after.
  revert s.
  induction history as [ | k history IH ]; intros s Hunit; cbn [fold_left].
  - split; [ exact Hunit | ]. split; [ reflexivity | ].
    intros v. unfold normalise, bind, field.
    apply Z.eqb_neq in Hunit. rewrite Hunit, andb_false_r. discriminate.
  - destruct (IH (perform NDEBUG k s)
                 (perform_keeps_reference_unit NDEBUG k s Hunit))
      as (H1 & _ & H3).
    split; [ exact H1 | ]. split; [ | exact H3 ].
    rewrite (perform_builds_agree k s Hunit).
    apply (IH (perform true k s)).
    apply perform_keeps_reference_unit. exact Hunit.
Qed.

End ScaleOperations.

Section ScaleOperationRuns.

Import AbstractScale.

Lemma zero_returns_normally_with_the_reference_unit_restored_witness :
  fst (zero false Average 1 bench_scale) = Ok tt
  /\ getReferenceUnit (snd (zero false Average 1 bench_scale))
     = getReferenceUnit bench_scale
  /\ getReferenceUnit bench_scale <> 0
  /\ getUnit (snd (zero false Average 1 bench_scale)) = getUnit bench_scale
  /\ 1%nat <> 0%nat.
Proof.
  split; [ vm_compute; reflexivity | ].
  apply (zero_returns_normally_with_the_reference_unit_restored
           false Average 1 bench_scale).
  vm_compute. reflexivity.
Defined.

Lemma reference_unit_stays_nonzero_witness :
  getReferenceUnit starved_scale <> 0
  /\ getReferenceUnit
       (after false [call_zero Average 1; call_setReferenceUnit 0;
                     call_read Median 2]
          starved_scale) <> 0.
Proof.
  split; [ vm_compute; discriminate | ].
  apply (reference_unit_stays_nonzero false
           [call_zero Average 1; call_setReferenceUnit 0; call_read Median 2]
           starved_scale).
  vm_compute. discriminate.
Defined.

End ScaleOperationRuns.
